(** * DankTimesBot: the dank time value class and the nightly update

    A shallow embedding of [src/dank-time/dank-time.ts] (class [DankTime])
    and of [Server.scheduleNightlyUpdates] in [src/server.ts], with the
    properties of the specification stated over them.

    Layout: [JS] holds the fragment of JavaScript the two files rely on
    (numbers with [%], [<], [>], [!==]; completions; [Array.indexOf]);
    [DankTime] embeds the class; [Server] embeds the nightly cron callback
    over an abstract world of collaborators (scheduler, chats, clock). *)

From Stdlib Require Import ZArith QArith Bool List String Ascii Lia Lqa.
Import ListNotations.

Local Open Scope Z_scope.

(* ================================================================== *)
(** * The JavaScript fragment *)
(* ================================================================== *)

Module JS.

(** ** Numbers

    A JavaScript number is a double.  The class only applies [% 1], [<],
    [>] and [!==] to its numbers, and all four are exact on doubles, so a
    finite number is modelled by the rational it denotes ([Fin q], up to
    [Qeq]) next to the three non-finite values.  Negative zero behaves as
    zero under all four operations and is not told apart. *)

Inductive number : Type :=
| Fin (q : Q)
| NaN
| PosInf
| NegInf.

Definition of_Z (z : Z) : number := Fin (inject_Z z).

(** Rounding towards zero, as in the definition of [%]. *)
Definition Qtrunc (q : Q) : Z := Z.quot (Qnum q) (Zpos (Qden q)).

(** [x % y]: the remainder with the sign of the dividend. *)
Definition rem (x y : number) : number :=
  match x, y with
  | Fin a, Fin b =>
      if Qeq_bool b 0 then NaN
      else Fin (a - b * inject_Z (Qtrunc (a / b)))%Q
  | Fin a, (PosInf | NegInf) => Fin a
  | _, _ => NaN
  end.

(** [x === y] on numbers: [NaN] equals nothing, itself included. *)
Definition strict_eq (x y : number) : bool :=
  match x, y with
  | Fin a, Fin b => Qeq_bool a b
  | PosInf, PosInf => true
  | NegInf, NegInf => true
  | _, _ => false
  end.

(** [x !== y] *)
Definition strict_neq (x y : number) : bool := negb (strict_eq x y).

(** [x < y]: every comparison with [NaN] is false. *)
Definition lt (x y : number) : bool :=
  match x, y with
  | Fin a, Fin b => match (a ?= b)%Q with Lt => true | _ => false end
  | NegInf, (Fin _ | PosInf) => true
  | Fin _, PosInf => true
  | _, _ => false
  end.

(** [x > y] *)
Definition gt (x y : number) : bool := lt y x.

(** ** Completions: a call returns normally or throws. *)

Inductive error : Type :=
| RangeError (message : string)
| Error (message : string).

Inductive completion (A : Type) : Type :=
| Normal (a : A)
| Throw (e : error).
Arguments Normal {A} a.
Arguments Throw {A} e.

(** ** Strings and arrays of strings

    Strings are compared by [===], which on strings is equality of the
    character sequences. *)

(** [arr.indexOf(x)]: the first index holding [x], or [-1]. *)
Fixpoint indexOf_from (arr : list string) (x : string) (i : Z) : Z :=
  match arr with
  | [] => -1
  | y :: rest => if String.eqb y x then i else indexOf_from rest x (i + 1)
  end.

Definition indexOf (arr : list string) (x : string) : Z := indexOf_from arr x 0.

(** [arr.push(x)] *)
Definition push (arr : list string) (x : string) : list string := arr ++ [x].

(** [arr.length] *)
Definition array_length (arr : list string) : Z := Z.of_nat (List.length arr).

(** An ASCII rendering of [String.prototype.toUpperCase]: the letters
    [a]..[z] go to [A]..[Z], every other character is kept.  The class is
    embedded over an arbitrary upper-casing function; this one serves the
    concrete examples. *)
Definition upper_ascii (c : ascii) : ascii :=
  let n := nat_of_ascii c in
  if ((97 <=? n)%nat && (n <=? 122)%nat)%bool then ascii_of_nat (n - 32) else c.

Fixpoint toUpperCase_ascii (s : string) : string :=
  match s with
  | EmptyString => EmptyString
  | String c rest => String (upper_ascii c) (toUpperCase_ascii rest)
  end.

(** *** What the number tests mean *)

(** [is_int x z]: the number [x] is the integer [z]. *)
Definition is_int (x : number) (z : Z) : Prop :=
  match x with
  | Fin q => (q == inject_Z z)%Q
  | _ => False
  end.

(** [whole_between lo hi x]: [x] is a whole number between [lo] and [hi],
    the bounds included. *)
Definition whole_between (lo hi : Z) (x : number) : Prop :=
  exists z, is_int x z /\ lo <= z <= hi.

(** The guard shared by the three range checks of the class:
    [x % 1 !== 0 || x < lo || x > hi]. *)
Definition out_of_range (x : number) (lo hi : Z) : bool :=
  strict_neq (rem x (of_Z 1)) (of_Z 0) || lt x (of_Z lo) || gt x (of_Z hi).

End JS.

(* ================================================================== *)
(** * [src/dank-time/dank-time.ts]: class [DankTime] *)
(* ================================================================== *)

Module DankTime.
Import JS.

(** The fields of an instance.  [_points] is declared without an
    initialiser, so it is [undefined] ([None]) until the setter stores a
    number. *)
Record t : Type := mk {
  hour : number;
  minute : number;
  texts : list string;
  _points : option number
}.

(** The literal of [toJSON], of interface [BasicDankTime]. *)
Record BasicDankTime : Type := literal {
  lit_hour : number;
  lit_minute : number;
  lit_texts : list string;
  lit_points : option number
}.

(** A method body runs on [this], may update it, and returns or throws;
    what was stored before a throw stays stored. *)
Definition Method (A : Type) : Type := t -> completion A * t.

Definition ret {A} (a : A) : Method A := fun this => (Normal a, this).

Definition throw {A} (e : error) : Method A := fun this => (Throw e, this).

Definition bind {A B} (m : Method A) (k : A -> Method B) : Method B :=
  fun this =>
    match m this with
    | (Normal a, this') => k a this'
    | (Throw e, this') => (Throw e, this')
    end.

Notation "x <- m ;; k" := (bind m (fun x => k))
  (at level 61, m at next level, right associativity).
Notation "m ;; k" := (bind m (fun _ => k))
  (at level 61, right associativity).

(** [if (c) { throw e; }] *)
Definition throw_if (c : bool) (e : error) : Method unit :=
  if c then throw e else ret tt.

(** [arr.forEach(f)] for a callback that acts on [this]. *)
Fixpoint forEach {A} (arr : list A) (f : A -> Method unit) : Method unit :=
  match arr with
  | [] => ret tt
  | x :: rest => f x ;; forEach rest f
  end.

(** [this.texts.push(text)] *)
Definition push_text (text : string) : Method unit :=
  fun this =>
    (Normal tt,
     {| hour := hour this; minute := minute this;
        texts := push (texts this) text; _points := _points this |}).

(** [this._points = points] *)
Definition store_points (points : number) : Method unit :=
  fun this =>
    (Normal tt,
     {| hour := hour this; minute := minute this;
        texts := texts this; _points := Some points |}).

(** [set points(points)] *)
Definition set_points (points : number) : Method unit :=
  throw_if (strict_neq (rem points (of_Z 1)) (of_Z 0)
            || lt points (of_Z 1) || gt points (of_Z 100))
    (RangeError "The points must be a whole number between 1 and 100!") ;;
  store_points points.

(** [get points()] *)
Definition get_points (this : t) : option number := _points this.

(** The body of the constructor, run on the instance whose [hour] and
    [minute] parameter properties are already assigned. *)
Definition constructor_body (texts0 : list string) (points : number)
  : Method unit :=
  fun this =>
   (throw_if (strict_neq (rem (hour this) (of_Z 1)) (of_Z 0)
              || lt (hour this) (of_Z 0) || gt (hour this) (of_Z 23))
      (RangeError "The hour must be a whole number between 0 and 23!") ;;
    throw_if (strict_neq (rem (minute this) (of_Z 1)) (of_Z 0)
              || lt (minute this) (of_Z 0) || gt (minute this) (of_Z 59))
      (RangeError "The minute must be a whole number between 0 and 59!") ;;
    throw_if (array_length texts0 <? 1)
      (RangeError
         "The texts must be a string array containing at least one item!") ;;
    forEach texts0 (fun text this' =>
      if indexOf (texts this') text =? -1
      then push_text text this'
      else ret tt this') ;;
    set_points points) this.

(** [new DankTime(hour, minute, texts, points = 1)]: an omitted or
    [undefined] fourth argument ([None]) takes the default.  A throw
    leaves the caller without an instance. *)
Definition points_or_default (points : option number) : number :=
  match points with
  | Some p => p
  | None => of_Z 1
  end.

Definition constructor (hour0 minute0 : number) (texts0 : list string)
    (points : option number) : completion t :=
  let points := points_or_default points in
  let this := {| hour := hour0; minute := minute0;
                 texts := []; _points := None |} in
  match constructor_body texts0 points this with
  | (Normal _, this') => Normal this'
  | (Throw e, _) => Throw e
  end.

Section HasText.
(** [String.prototype.toUpperCase], left abstract. *)
Variable toUpperCase : string -> string.

(** The [for .. of] loop of [hasText]. *)
Fixpoint hasText_loop (remaining : list string) (text : string) : bool :=
  match remaining with
  | [] => false
  | text2 :: rest =>
      if String.eqb (toUpperCase text2) text then true
      else hasText_loop rest text
  end.

Definition hasText (this : t) (text : string) : bool :=
  let text := toUpperCase text in
  hasText_loop (texts this) text.
End HasText.

Definition toJSON (this : t) : BasicDankTime :=
  {| lit_hour := hour this; lit_minute := minute this;
     lit_texts := texts this; lit_points := get_points this |}.

Definition fromJSON (lit : BasicDankTime) : completion t :=
  constructor (lit_hour lit) (lit_minute lit) (lit_texts lit) (lit_points lit).

Definition compare (a b : t) : Z :=
  if lt (hour a) (hour b) then -1
  else if gt (hour a) (hour b) then 1
  else if lt (minute a) (minute b) then -1
  else if gt (minute a) (minute b) then 1
  else 0.

(** What the [forEach] of the constructor leaves in [this.texts], as a
    fold over the texts given. *)
Definition add_unique (stored : list string) (text : string) : list string :=
  if indexOf stored text =? -1 then push stored text else stored.

Definition unique_texts (texts0 : list string) : list string :=
  fold_left add_unique texts0 [].

(** ** The life of an instance

    What client code can do to a constructed instance through the class:
    assign [points], read [points], and call [hasText], [toJSON] and
    [compare].  Only the setter has an assignment in its body; [hour] and
    [minute] are [readonly].  ([texts] is [readonly] as a property; the
    array it holds is reachable by clients, who are taken not to write
    to it.) *)
Inductive call : Type :=
| SetPoints (points : number)
| GetPoints
| HasText (text : string)
| ToJSON
| CompareWith (other : t).

(** The instance as one call leaves it. *)
Definition after_call (c : call) (this : t) : t :=
  match c with
  | SetPoints p => snd (set_points p this)
  | GetPoints | HasText _ | ToJSON | CompareWith _ => this
  end.

(** The instance as a sequence of calls leaves it. *)
Definition after_calls (cs : list call) (this : t) : t :=
  fold_left (fun this c => after_call c this) cs this.

(** The instances the program can hold: those a [new DankTime(..)] returned. *)
Definition constructed (this : t) : Prop :=
  exists hour0 minute0 texts0 points,
    constructor hour0 minute0 texts0 points = Normal this.

(** The instances the program can meet: a constructed one, as any calls
    since its construction left it. *)
Definition instance (this : t) : Prop :=
  exists this0 calls, constructed this0 /\ this = after_calls calls this0.

(** The messages of the four [RangeError]s. *)
Definition hour_message : string :=
  "The hour must be a whole number between 0 and 23!".
Definition minute_message : string :=
  "The minute must be a whole number between 0 and 59!".
Definition texts_message : string :=
  "The texts must be a string array containing at least one item!".
Definition points_message : string :=
  "The points must be a whole number between 1 and 100!".

End DankTime.

(* ================================================================== *)
(** * [DankTime] objects and their arrays, by reference *)
(* ================================================================== *)

(** The class once more, now as a program holding references sees it:
    objects and arrays live in a store, a field read or write goes through
    the reference, and the array of [texts] is shared by everybody who
    holds its reference.  [DankTime] above is the same class on the values
    of the fields. *)
Module Heap.
Import JS.

Definition ref : Type := nat.

(** The fields of a [DankTime] object; [texts] holds the reference of
    the array. *)
Record object : Type := {
  hour : number;
  minute : number;
  texts : ref;
  _points : option number
}.

(** The store: the objects and the arrays allocated so far, each at the
    reference that is its position. *)
Record t : Type := mk {
  objects : list object;
  arrays : list (list string)
}.

Definition empty : t := {| objects := []; arrays := [] |}.

(** References are never dangling in JavaScript; the defaults below are
    never read in a well-formed store. *)
Definition no_object : object :=
  {| hour := NaN; minute := NaN; texts := O; _points := None |}.

Definition object_at (s : t) (o : ref) : object := nth o (objects s) no_object.

Definition array_at (s : t) (a : ref) : list string := nth a (arrays s) [].

Fixpoint replace {A} (i : nat) (v : A) (l : list A) : list A :=
  match l, i with
  | [], _ => []
  | _ :: rest, O => v :: rest
  | x :: rest, S i' => x :: replace i' v rest
  end.

(** Code that runs on the store, returns or throws. *)
Definition M (A : Type) : Type := t -> completion A * t.

Definition ret {A} (a : A) : M A := fun s => (Normal a, s).

Definition throw {A} (e : error) : M A := fun s => (Throw e, s).

Definition bind {A B} (m : M A) (k : A -> M B) : M B :=
  fun s =>
    match m s with
    | (Normal a, s') => k a s'
    | (Throw e, s') => (Throw e, s')
    end.

Notation "x <- m ;; k" := (bind m (fun x => k))
  (at level 61, m at next level, right associativity).
Notation "m ;; k" := (bind m (fun _ => k))
  (at level 61, right associativity).

Definition throw_if (c : bool) (e : error) : M unit :=
  if c then throw e else ret tt.

Fixpoint forEach {A} (arr : list A) (f : A -> M unit) : M unit :=
  match arr with
  | [] => ret tt
  | x :: rest => f x ;; forEach rest f
  end.

(** [this.hour], [this.minute], [this.texts], [this._points] *)
Definition get_hour (this : ref) : M number :=
  fun s => (Normal (hour (object_at s this)), s).

Definition get_minute (this : ref) : M number :=
  fun s => (Normal (minute (object_at s this)), s).

Definition get_texts (this : ref) : M ref :=
  fun s => (Normal (texts (object_at s this)), s).

Definition get__points (this : ref) : M (option number) :=
  fun s => (Normal (_points (object_at s this)), s).

(** [this._points = points] *)
Definition put__points (this : ref) (points : number) : M unit :=
  fun s =>
    let o := object_at s this in
    (Normal tt,
     {| objects :=
          replace this {| hour := hour o; minute := minute o;
                          texts := texts o; _points := Some points |}
                  (objects s);
        arrays := arrays s |}).

(** The elements of the array at [a], and [a.push(x)]. *)
Definition array_contents (a : ref) : M (list string) :=
  fun s => (Normal (array_at s a), s).

Definition array_push (a : ref) (x : string) : M unit :=
  fun s =>
    (Normal tt,
     {| objects := objects s;
        arrays := replace a (push (array_at s a) x) (arrays s) |}).

(** What precedes the body of the constructor: the new object with its
    parameter properties [hour] and [minute] and with
    [texts = new Array<string>()]. *)
Definition allocate (hour0 minute0 : number) : M ref :=
  fun s =>
    (Normal (List.length (objects s)),
     {| objects :=
          objects s ++ [{| hour := hour0; minute := minute0;
                           texts := List.length (arrays s);
                           _points := None |}];
        arrays := arrays s ++ [[]] |}).

(** [set points(points)] *)
Definition set_points (this : ref) (points : number) : M unit :=
  throw_if (strict_neq (rem points (of_Z 1)) (of_Z 0)
            || lt points (of_Z 1) || gt points (of_Z 100))
    (RangeError "The points must be a whole number between 1 and 100!") ;;
  put__points this points.

(** [get points()] *)
Definition get_points (this : ref) : M (option number) := get__points this.

(** [new DankTime(hour, minute, texts, points = 1)].  The constructor only
    reads the array it is given, so [texts0] is its elements. *)
Definition constructor (hour0 minute0 : number) (texts0 : list string)
    (points : option number) : M ref :=
  this <- allocate hour0 minute0 ;;
  h <- get_hour this ;;
  throw_if (strict_neq (rem h (of_Z 1)) (of_Z 0)
            || lt h (of_Z 0) || gt h (of_Z 23))
    (RangeError "The hour must be a whole number between 0 and 23!") ;;
  m <- get_minute this ;;
  throw_if (strict_neq (rem m (of_Z 1)) (of_Z 0)
            || lt m (of_Z 0) || gt m (of_Z 59))
    (RangeError "The minute must be a whole number between 0 and 59!") ;;
  throw_if (array_length texts0 <? 1)
    (RangeError
       "The texts must be a string array containing at least one item!") ;;
  forEach texts0 (fun text =>
    arr <- get_texts this ;;
    stored <- array_contents arr ;;
    if indexOf stored text =? -1 then array_push arr text else ret tt) ;;
  set_points this (DankTime.points_or_default points) ;;
  ret this.

(** [hasText(text)] *)
Definition hasText (toUpperCase : string -> string) (this : ref)
    (text : string) : M bool :=
  let text := toUpperCase text in
  arr <- get_texts this ;;
  stored <- array_contents arr ;;
  ret (DankTime.hasText_loop toUpperCase stored text).

(** The literal of [toJSON]: its [texts] is a reference. *)
Record BasicDankTime : Type := literal {
  lit_hour : number;
  lit_minute : number;
  lit_texts : ref;
  lit_points : option number
}.

(** [toJSON()]: [texts: this.texts] puts the array itself in the
    literal. *)
Definition toJSON (this : ref) : M BasicDankTime :=
  h <- get_hour this ;;
  m <- get_minute this ;;
  arr <- get_texts this ;;
  p <- get_points this ;;
  ret {| lit_hour := h; lit_minute := m; lit_texts := arr; lit_points := p |}.

(** [DankTime.fromJSON(literal)] *)
Definition fromJSON (lit : BasicDankTime) : M ref :=
  given <- array_contents (lit_texts lit) ;;
  constructor (lit_hour lit) (lit_minute lit) given (lit_points lit).

(** [DankTime.compare(a, b)] *)
Definition compare (a b : ref) : M Z :=
  ha <- get_hour a ;;
  hb <- get_hour b ;;
  ma <- get_minute a ;;
  mb <- get_minute b ;;
  ret (if lt ha hb then -1
       else if gt ha hb then 1
       else if lt ma mb then -1
       else if gt ma mb then 1
       else 0).

(** What a program can do with the references it holds: construct, call
    the methods of the class, and write to an array it can reach, such as
    the one in the public property [texts] of an object or in the literal
    [toJSON] returned.  ([hour] and [minute] are [readonly]: an assignment
    to them does not compile.) *)
Inductive operation : Type :=
| New (hour0 minute0 : number) (texts0 : list string) (points : option number)
| SetPoints (this : ref) (points : number)
| GetPoints (this : ref)
| HasText (this : ref) (text : string)
| ToJSON (this : ref)
| FromJSON (lit : BasicDankTime)
| Compare (a b : ref)
| Push (array : ref) (text : string).

(** The store as one operation leaves it, whether it returns or throws. *)
Definition run (toUpperCase : string -> string) (op : operation) (s : t) : t :=
  match op with
  | New h m texts0 p => snd (constructor h m texts0 p s)
  | SetPoints this p => snd (set_points this p s)
  | GetPoints this => snd (get_points this s)
  | HasText this text => snd (hasText toUpperCase this text s)
  | ToJSON this => snd (toJSON this s)
  | FromJSON lit => snd (fromJSON lit s)
  | Compare a b => snd (compare a b s)
  | Push a text => snd (array_push a text s)
  end.

Definition run_all (toUpperCase : string -> string) (ops : list operation)
    (s : t) : t :=
  fold_left (fun s op => run toUpperCase op s) ops s.

(** The object at [o] by the values of its fields. *)
Definition view (s : t) (o : ref) : DankTime.t :=
  {| DankTime.hour := hour (object_at s o);
     DankTime.minute := minute (object_at s o);
     DankTime.texts := array_at s (texts (object_at s o));
     DankTime._points := _points (object_at s o) |}.

(** Well-formed stores: the array of every object is allocated. *)
Definition wf (s : t) : Prop :=
  forall o, (o < List.length (objects s))%nat ->
            (texts (object_at s o) < List.length (arrays s))%nat.

(** ** Regeneration *)

(** The random slots of a room, as references. *)
Record Room : Type := {
  randomTimeSlots : list ref
}.

(** One random draw: hour, minute, texts and points of a slot to make. *)
Definition Draw : Type := (number * number * list string * number)%type.

(** Modelled from the spec: [Chat.generateRandomDankTimes] is not among
    the sources.  Section 4.1: [generateRandomTimeSlots] "produces [count]
    TimeSlots" with hour, minute, points and texts drawn at random;
    [draws] stands for what was drawn, one entry per slot, and each slot
    is made by the constructor of the class. *)
Fixpoint generateRandomTimeSlots (draws : list Draw) : M (list ref) :=
  match draws with
  | [] => ret []
  | (h, m, texts0, p) :: rest =>
      slot <- constructor h m texts0 (Some p) ;;
      slots <- generateRandomTimeSlots rest ;;
      ret (slot :: slots)
  end.

(** Modelled from the spec: section 4.3, step 3,
    [room.randomTimeSlots = generateRandomTimeSlots(room, config.count,
    config.pointRange)]: the room's sequence of random slots is assigned
    the newly generated sequence. *)
Definition regenerate (draws : list Draw) (room : Room) : M Room :=
  slots <- generateRandomTimeSlots draws ;;
  ret {| randomTimeSlots := slots |}.

End Heap.

(* ================================================================== *)
(** * [src/server.ts]: the nightly update *)
(* ================================================================== *)

Module Server.
Import JS.

(** The collaborators of [Server] are interfaces whose implementations
    live outside the two embedded files.  [World] is their joint mutable
    state (scheduler timers, the chat registry and its chats, the clock)
    and [Chat] names a chat object.  Each method is a transformer of the
    world that returns or throws. *)
Record Collaborators (World Chat : Type) : Type := {
  (** [this.moment().unix()] *)
  moment_unix : World -> completion Z * World;
  (** [this.chatRegistry.chats], in the order [forEach] visits them *)
  chats : World -> list Chat;
  (** [chat.running] *)
  running : Chat -> World -> bool;
  (** [this.scheduler.*] *)
  unscheduleRandomDankTimesOfChat : Chat -> World -> completion unit * World;
  unscheduleAutoLeaderboardsOfChat : Chat -> World -> completion unit * World;
  scheduleRandomDankTimesOfChat : Chat -> World -> completion unit * World;
  scheduleAutoLeaderboardsOfChat : Chat -> World -> completion unit * World;
  (** [chat.*] *)
  generateRandomDankTimes : Chat -> World -> completion unit * World;
  hardcoreModeCheck : Chat -> Z -> World -> completion unit * World;
  removeUsersWithZeroScore : Chat -> World -> completion unit * World
}.
Arguments moment_unix {World Chat} _ _.
Arguments chats {World Chat} _ _.
Arguments running {World Chat} _ _ _.
Arguments unscheduleRandomDankTimesOfChat {World Chat} _ _ _.
Arguments unscheduleAutoLeaderboardsOfChat {World Chat} _ _ _.
Arguments scheduleRandomDankTimesOfChat {World Chat} _ _ _.
Arguments scheduleAutoLeaderboardsOfChat {World Chat} _ _ _.
Arguments generateRandomDankTimes {World Chat} _ _ _.
Arguments hardcoreModeCheck {World Chat} _ _ _ _.
Arguments removeUsersWithZeroScore {World Chat} _ _ _.

(** The calls the callback makes, as an observer of the collaborators
    sees them begin. *)
Inductive Call (Chat : Type) : Type :=
| ConsoleInfo (message : string)
| MomentUnix
| UnscheduleRandomDankTimesOfChat (chat : Chat)
| UnscheduleAutoLeaderboardsOfChat (chat : Chat)
| GenerateRandomDankTimes (chat : Chat)
| ScheduleRandomDankTimesOfChat (chat : Chat)
| ScheduleAutoLeaderboardsOfChat (chat : Chat)
| HardcoreModeCheck (chat : Chat) (now : Z)
| RemoveUsersWithZeroScore (chat : Chat).
Arguments ConsoleInfo {Chat} message.
Arguments MomentUnix {Chat}.
Arguments UnscheduleRandomDankTimesOfChat {Chat} chat.
Arguments UnscheduleAutoLeaderboardsOfChat {Chat} chat.
Arguments GenerateRandomDankTimes {Chat} chat.
Arguments ScheduleRandomDankTimesOfChat {Chat} chat.
Arguments ScheduleAutoLeaderboardsOfChat {Chat} chat.
Arguments HardcoreModeCheck {Chat} chat now.
Arguments RemoveUsersWithZeroScore {Chat} chat.

(** The world together with the calls begun so far, oldest first. *)
Record State (World Chat : Type) : Type := mkState {
  world : World;
  trace : list (Call Chat)
}.
Arguments mkState {World Chat} world trace.
Arguments world {World Chat} _.
Arguments trace {World Chat} _.

Section Nightly.
Variables World Chat : Type.
Variable env : Collaborators World Chat.

(** Server code: runs on the state, returns or throws.  There is no
    [try] in [server.ts], so a throw is only ever propagated. *)
Definition Action (A : Type) : Type :=
  State World Chat -> completion A * State World Chat.

Definition ret {A} (a : A) : Action A := fun s => (Normal a, s).

Definition bind {A B} (m : Action A) (k : A -> Action B) : Action B :=
  fun s =>
    match m s with
    | (Normal a, s') => k a s'
    | (Throw e, s') => (Throw e, s')
    end.

(** Calling a collaborator: the call is recorded as it begins, then the
    collaborator acts on the world. *)
Definition call {A} (c : Call Chat) (op : World -> completion A * World)
  : Action A :=
  fun s =>
    let (r, w) := op (world s) in
    (r, {| world := w; trace := trace s ++ [c] |}).

(** Reading a property of the world. *)
Definition read {A} (f : World -> A) : Action A :=
  fun s => (Normal (f (world s)), s).

(** [collection.forEach(f)]: the callback runs on each entry in turn; a
    throw from the callback ends the iteration.  The entries are those
    present when the iteration starts: the collaborators called from the
    callback are taken not to add or remove rooms of the registry. *)
Fixpoint forEach {A} (entries : list A) (f : A -> Action unit)
  : Action unit :=
  match entries with
  | [] => ret tt
  | x :: rest => bind (f x) (fun _ => forEach rest f)
  end.

(** [console.info(message)] *)
Definition console_info (message : string) : Action unit :=
  call (ConsoleInfo message) (fun w => (Normal tt, w)).

Notation "x <- m ;; k" := (bind m (fun x => k))
  (at level 61, m at next level, right associativity).
Notation "m ;; k" := (bind m (fun _ => k))
  (at level 61, right associativity).

(** The body of the [forEach] callback, lines 82 to 100. *)
Definition nightlyUpdateOfChat (now : Z) (chat : Chat) : Action unit :=
  isRunning <- read (running env chat) ;;
  if isRunning : bool then
    (* Unschedule *)
    call (UnscheduleRandomDankTimesOfChat chat)
         (unscheduleRandomDankTimesOfChat env chat) ;;
    call (UnscheduleAutoLeaderboardsOfChat chat)
         (unscheduleAutoLeaderboardsOfChat env chat) ;;
    (* Generate random dank times *)
    call (GenerateRandomDankTimes chat)
         (generateRandomDankTimes env chat) ;;
    (* Reschedule *)
    call (ScheduleRandomDankTimesOfChat chat)
         (scheduleRandomDankTimesOfChat env chat) ;;
    call (ScheduleAutoLeaderboardsOfChat chat)
         (scheduleAutoLeaderboardsOfChat env chat) ;;
    (* Your punishment must be more severe! *)
    call (HardcoreModeCheck chat now) (hardcoreModeCheck env chat now) ;;
    (* Remove plebs whose score is 0. *)
    call (RemoveUsersWithZeroScore chat)
         (removeUsersWithZeroScore env chat)
  else ret tt.

(** The callback given to the cron job ["0 0 0 * * *"] by
    [scheduleNightlyUpdates]: one run of it is one nightly fire. *)
Definition nightlyUpdate : Action unit :=
  console_info "Doing the nightly update!" ;;
  now <- call MomentUnix (moment_unix env) ;;
  registered <- read (chats env) ;;
  forEach registered (nightlyUpdateOfChat now).

(** ** The nightly cycle in the words of the specification *)

(** The seven steps of section 4.3 for one room, as calls. *)
Definition cycle_calls (now : Z) (chat : Chat) : list (Call Chat) :=
  [ UnscheduleRandomDankTimesOfChat chat;
    UnscheduleAutoLeaderboardsOfChat chat;
    GenerateRandomDankTimes chat;
    ScheduleRandomDankTimesOfChat chat;
    ScheduleAutoLeaderboardsOfChat chat;
    HardcoreModeCheck chat now;
    RemoveUsersWithZeroScore chat ].

(** The seven steps for one room, on worlds: each step starts from the
    world the step before it left when it returned. *)
Definition RoomCycle (now : Z) (chat : Chat) (w w' : World) : Prop :=
  exists w1 w2 w3 w4 w5 w6,
    unscheduleRandomDankTimesOfChat env chat w = (Normal tt, w1) /\
    unscheduleAutoLeaderboardsOfChat env chat w1 = (Normal tt, w2) /\
    generateRandomDankTimes env chat w2 = (Normal tt, w3) /\
    scheduleRandomDankTimesOfChat env chat w3 = (Normal tt, w4) /\
    scheduleAutoLeaderboardsOfChat env chat w4 = (Normal tt, w5) /\
    hardcoreModeCheck env chat now w5 = (Normal tt, w6) /\
    removeUsersWithZeroScore env chat w6 = (Normal tt, w').

(** One fire over the rooms of the registry, in order: a running room
    goes through its cycle, a stopped room is passed over.  The last
    index lists the rooms that went through a cycle. *)
Inductive NightlyCycle (now : Z)
  : list Chat -> World -> World -> list Chat -> Prop :=
| cycle_done w :
    NightlyCycle now [] w w []
| cycle_running chat rest w w1 w' cycled :
    running env chat w = true ->
    RoomCycle now chat w w1 ->
    NightlyCycle now rest w1 w' cycled ->
    NightlyCycle now (chat :: rest) w w' (chat :: cycled)
| cycle_stopped chat rest w w' cycled :
    running env chat w = false ->
    NightlyCycle now rest w w' cycled ->
    NightlyCycle now (chat :: rest) w w' cycled.

End Nightly.

Arguments ret {World Chat A} a.
Arguments bind {World Chat A B} m k.
Arguments call {World Chat A} c op.
Arguments read {World Chat A} f.
Arguments forEach {World Chat A} entries f.
Arguments cycle_calls {Chat} now chat.
Arguments nightlyUpdateOfChat {World Chat} env now chat.
Arguments nightlyUpdate {World Chat} env.
Arguments RoomCycle {World Chat} env now chat w w'.
Arguments NightlyCycle {World Chat} env now _ _ _ _.

(** ** A registry of test rooms

    Stand-ins for the collaborators, to run the callback on.  The world is
    the clock in Unix seconds; every collaborator call takes one second.
    A room whose [broken] flag is set makes [generateRandomDankTimes]
    throw. *)
Record TestChat : Type := {
  id : Z;
  is_running : bool;
  broken : bool
}.

Definition tick : Z -> completion unit * Z := fun w => (Normal tt, w + 1).

Definition test_env (registry : list TestChat) : Collaborators Z TestChat :=
  {| moment_unix := fun w => (Normal w, w + 1);
     chats := fun _ => registry;
     running := fun chat _ => is_running chat;
     unscheduleRandomDankTimesOfChat := fun _ => tick;
     unscheduleAutoLeaderboardsOfChat := fun _ => tick;
     scheduleRandomDankTimesOfChat := fun _ => tick;
     scheduleAutoLeaderboardsOfChat := fun _ => tick;
     generateRandomDankTimes := fun chat w =>
       if broken chat
       then (Throw (Error "cannot generate random dank times"), w + 1)
       else tick w;
     hardcoreModeCheck := fun _ _ => tick;
     removeUsersWithZeroScore := fun _ => tick |}.

Definition room (i : Z) : TestChat :=
  {| id := i; is_running := true; broken := false |}.
Definition stopped_room (i : Z) : TestChat :=
  {| id := i; is_running := false; broken := false |}.
Definition broken_room (i : Z) : TestChat :=
  {| id := i; is_running := true; broken := true |}.

End Server.

(* ================================================================== *)
(** * The steps of one room, one by one *)
(* ================================================================== *)

Module RoomSteps.
Import JS.

Section Steps.
Variables World Chat : Type.
Variable env : Server.Collaborators World Chat.

(** The seven collaborator methods the callback calls for a room, in the
    order of lines 85 to 99 of [server.ts]. *)
Definition cycle_steps (now : Z) (chat : Chat)
  : list (World -> completion unit * World) :=
  [ Server.unscheduleRandomDankTimesOfChat env chat;
    Server.unscheduleAutoLeaderboardsOfChat env chat;
    Server.generateRandomDankTimes env chat;
    Server.scheduleRandomDankTimesOfChat env chat;
    Server.scheduleAutoLeaderboardsOfChat env chat;
    Server.hardcoreModeCheck env chat now;
    Server.removeUsersWithZeroScore env chat ].

(** [FirstThrow steps w k e w']: running [steps] from the world [w] one
    after the other, the first [k - 1] of them return and the [k]-th
    throws [e], leaving the world [w']. *)
Inductive FirstThrow
  : list (World -> completion unit * World) ->
    World -> nat -> error -> World -> Prop :=
| throws_now step rest w e w' :
    step w = (Throw e, w') ->
    FirstThrow (step :: rest) w 1 e w'
| throws_later step rest w w1 k e w' :
    step w = (Normal tt, w1) ->
    FirstThrow rest w1 k e w' ->
    FirstThrow (step :: rest) w (S k) e w'.

End Steps.

Arguments cycle_steps {World Chat} env now chat.
Arguments FirstThrow {World} _ _ _ _ _.

End RoomSteps.

(* ================================================================== *)
(** * [src/server.ts]: what [run] does at startup *)
(* ================================================================== *)

Module Startup.
Import JS.

(** The fields of [Config] that [server.ts] uses.  The server holds the
    configuration object and is the only one to assign to it here. *)
Record Config : Type := {
  persistenceRate : Z;
  sendWhatsNewMsg : bool
}.

(** The collaborators of the startup methods: those of the nightly update
    (for the registry and [chat.generateRandomDankTimes]) and the ones
    below. *)
Record Collaborators (World Chat : Type) : Type := {
  nightly : Server.Collaborators World Chat;
  (** [chat.id] *)
  chat_id : Chat -> World -> Z;
  (** [this.scheduler.scheduleAllOfChat(chat)] *)
  scheduleAllOfChat : Chat -> World -> completion unit * World;
  (** [this.util.releaseLogToWhatsNewMessage(this.releaseLog)] *)
  releaseLogToWhatsNewMessage : World -> completion string * World;
  (** [this.telegramClient.sendMessage(chatId, message)] *)
  sendMessage : Z -> string -> World -> completion unit * World;
  (** [this.fileIO.saveConfigToFile(config)] *)
  saveConfigToFile : Config -> World -> completion unit * World
}.
Arguments nightly {World Chat} _.
Arguments chat_id {World Chat} _ _ _.
Arguments scheduleAllOfChat {World Chat} _ _ _.
Arguments releaseLogToWhatsNewMessage {World Chat} _ _.
Arguments sendMessage {World Chat} _ _ _ _.
Arguments saveConfigToFile {World Chat} _ _ _.

(** The calls the startup methods make. *)
Inductive Call (Chat : Type) : Type :=
| GenerateRandomDankTimes (chat : Chat)
| ScheduleAllOfChat (chat : Chat)
| ReleaseLogToWhatsNewMessage
| SendMessage (chatId : Z) (message : string)
| SaveConfigToFile (config : Config).
Arguments GenerateRandomDankTimes {Chat} chat.
Arguments ScheduleAllOfChat {Chat} chat.
Arguments ReleaseLogToWhatsNewMessage {Chat}.
Arguments SendMessage {Chat} chatId message.
Arguments SaveConfigToFile {Chat} config.

(** The world, the server's configuration and the calls begun so far. *)
Record State (World Chat : Type) : Type := mkState {
  world : World;
  config : Config;
  trace : list (Call Chat)
}.
Arguments mkState {World Chat} world config trace.
Arguments world {World Chat} _.
Arguments config {World Chat} _.
Arguments trace {World Chat} _.

Section Methods.
Variables World Chat : Type.
Variable env : Collaborators World Chat.

Definition Action (A : Type) : Type :=
  State World Chat -> completion A * State World Chat.

Definition ret {A} (a : A) : Action A := fun s => (Normal a, s).

Definition bind {A B} (m : Action A) (k : A -> Action B) : Action B :=
  fun s =>
    match m s with
    | (Normal a, s') => k a s'
    | (Throw e, s') => (Throw e, s')
    end.

(** Calling a collaborator, recorded as it begins. *)
Definition call {A} (c : Call Chat) (op : World -> completion A * World)
  : Action A :=
  fun s =>
    let (r, w) := op (world s) in
    (r, {| world := w; config := config s; trace := trace s ++ [c] |}).

(** Reading a property of the world. *)
Definition read {A} (f : World -> A) : Action A :=
  fun s => (Normal (f (world s)), s).

(** [this.config] *)
Definition get_config : Action Config :=
  fun s => (Normal (config s), s).

(** [this.config.sendWhatsNewMsg = value] *)
Definition set_sendWhatsNewMsg (value : bool) : Action unit :=
  fun s =>
    (Normal tt,
     {| world := world s;
        config := {| persistenceRate := persistenceRate (config s);
                     sendWhatsNewMsg := value |};
        trace := trace s |}).

(** [collection.forEach(f)], over the entries present when it starts. *)
Fixpoint forEach {A} (entries : list A) (f : A -> Action unit)
  : Action unit :=
  match entries with
  | [] => ret tt
  | x :: rest => bind (f x) (fun _ => forEach rest f)
  end.

Notation "x <- m ;; k" := (bind m (fun x => k))
  (at level 61, m at next level, right associativity).
Notation "m ;; k" := (bind m (fun _ => k))
  (at level 61, right associativity).

(** [generateAndScheduleRandomDankTimes], lines 70 to 75. *)
Definition generateAndScheduleRandomDankTimes : Action unit :=
  registered <- read (Server.chats (nightly env)) ;;
  forEach registered (fun chat =>
    call (GenerateRandomDankTimes chat)
         (Server.generateRandomDankTimes (nightly env) chat) ;;
    call (ScheduleAllOfChat chat) (scheduleAllOfChat env chat)).

(** [sendWhatsNewMessageIfApplicable], lines 105 to 120. *)
Definition sendWhatsNewMessageIfApplicable : Action unit :=
  cfg <- get_config ;;
  if sendWhatsNewMsg cfg then
    (* Prepare message. *)
    message <- call ReleaseLogToWhatsNewMessage
                    (releaseLogToWhatsNewMessage env) ;;
    (* Send it to all chats. *)
    registered <- read (Server.chats (nightly env)) ;;
    forEach registered (fun chat =>
      chatId <- read (chat_id env chat) ;;
      call (SendMessage chatId message) (sendMessage env chatId message)) ;;
    (* Update config so the message is not sent on later startups. *)
    set_sendWhatsNewMsg false ;;
    cfg' <- get_config ;;
    call (SaveConfigToFile cfg') (saveConfigToFile env cfg')
  else ret tt.

End Methods.

Arguments ret {World Chat A} a.
Arguments bind {World Chat A B} m k.
Arguments call {World Chat A} c op.
Arguments read {World Chat A} f.
Arguments forEach {World Chat A} entries f.
Arguments generateAndScheduleRandomDankTimes {World Chat} env.
Arguments sendWhatsNewMessageIfApplicable {World Chat} env.

(** Stand-ins to run the startup methods on: the test rooms of the nightly
    update, a chat's id for [chat.id], a fixed release message, and
    collaborators that take one second each. *)
Definition test_env (registry : list Server.TestChat)
  : Collaborators Z Server.TestChat :=
  {| nightly := Server.test_env registry;
     chat_id := fun chat _ => Server.id chat;
     scheduleAllOfChat := fun _ => Server.tick;
     releaseLogToWhatsNewMessage :=
       fun w => (Normal "What's new: dank times"%string, w + 1);
     sendMessage := fun _ _ => Server.tick;
     saveConfigToFile := fun _ => Server.tick |}.

(** The same, except that sending to the chat with id 2 throws. *)
Definition test_env_unreachable_chat (registry : list Server.TestChat)
  : Collaborators Z Server.TestChat :=
  {| nightly := Server.test_env registry;
     chat_id := fun chat _ => Server.id chat;
     scheduleAllOfChat := fun _ => Server.tick;
     releaseLogToWhatsNewMessage :=
       fun w => (Normal "What's new: dank times"%string, w + 1);
     sendMessage := fun chatId _ w =>
       if chatId =? 2 then (Throw (Error "chat not found"), w + 1)
       else Server.tick w;
     saveConfigToFile := fun _ => Server.tick |}.

End Startup.

(* ================================================================== *)
(** * [src/telegram-client/telegram-client.ts]: class [TelegramClient] *)
(* ================================================================== *)

Module TelegramClient.
Import JS.

(** A listener object, known by its reference. *)
Definition Listener : Type := Z.

(** What [botUsernamePromise] holds when it is not [null]: the promise
    derived from [bot.getMe()], not yet settled or rejected.  (Once the
    request is fulfilled the [then] callback stores [null].) *)
Inductive Promise : Type :=
| Pending
| Rejected.

(** The mutable fields of a client. *)
Record t : Type := mk {
  listeners : list Listener;
  cachedBotUsername : string;
  botUsernamePromise : option Promise
}.

(** The field initialisers. *)
Definition new : t :=
  {| listeners := []; cachedBotUsername := ""; botUsernamePromise := None |}.

Definition developerUserId : Z := 100805902.

(** The parts of an incoming message the client reads: [msg.chat.id],
    [msg.chat.type] and [msg.from.id]. *)
Record Message : Type := {
  chat_id : Z;
  chat_type : string;
  from_id : Z
}.

(** The parts of a [BotCommand] the client reads.  [action] stands for
    [botCommand.action.call(botCommand.object, msg, match)]. *)
Record BotCommand : Type := {
  name : string;
  adminOnly : bool;
  action : Message -> list string -> completion string
}.

(** The calls the client makes on the bot, the console, a command and its
    listeners. *)
Inductive Call : Type :=
| GetChatAdministrators (chatId : Z)
| GetMe
| BotSendMessage (chatId : Z) (htmlMessage : string) (parse_mode : string)
| CommandAction (command : string)
| ConsoleError (text : string) (reason : error)
| OnErrorFromApi (listener : Listener) (chatId : Z) (reason : error).

(** [this.listeners.indexOf(subscriber)], by reference. *)
Fixpoint indexOf_from (arr : list Listener) (x : Listener) (i : Z) : Z :=
  match arr with
  | [] => -1
  | y :: rest => if y =? x then i else indexOf_from rest x (i + 1)
  end.

Definition indexOf (arr : list Listener) (x : Listener) : Z :=
  indexOf_from arr x 0.

(** [subscribe], lines 74 to 78. *)
Definition subscribe (subscriber : Listener) (this : t) : t :=
  if indexOf (listeners this) subscriber =? -1 then
    {| listeners := listeners this ++ [subscriber];
       cachedBotUsername := cachedBotUsername this;
       botUsernamePromise := botUsernamePromise this |}
  else this.

(** The [forEach] of the [catch] callback of [sendMessage]:
    [listener.onErrorFromApi(chatId, reason)] for each listener in turn.
    There is no [try] around the call, so a listener that throws ends the
    iteration.  [onErrorFromApi] is what a listener does when told: it
    returns or throws.  ([forEach] visits the listeners present when it
    starts; there is no way to unsubscribe.) *)
Fixpoint tell_listeners
    (onErrorFromApi : Listener -> Z -> error -> completion unit)
    (remaining : list Listener) (chatId : Z) (reason : error)
  : completion unit * list Call :=
  match remaining with
  | [] => (Normal tt, [])
  | listener :: rest =>
      match onErrorFromApi listener chatId reason with
      | Normal _ =>
          let (outcome, calls) :=
            tell_listeners onErrorFromApi rest chatId reason in
          (outcome, OnErrorFromApi listener chatId reason :: calls)
      | Throw thrown =>
          (Throw thrown, [OnErrorFromApi listener chatId reason])
      end
  end.

(** [sendMessage], lines 50 to 55: the call on the bot, and how the
    promise it returns settles.  [sent] is how the bot's own promise
    settles; when it is rejected the [catch] callback runs on the client
    [this] as it is then, and the returned promise is fulfilled when the
    callback returns and rejected when it throws. *)
Definition sendMessage
    (onErrorFromApi : Listener -> Z -> error -> completion unit)
    (sent : completion unit) (chatId : Z) (htmlMessage : string) (this : t)
  : completion unit * list Call :=
  match sent with
  | Normal value => (Normal value, [BotSendMessage chatId htmlMessage "HTML"])
  | Throw reason =>
      let (outcome, calls) :=
        tell_listeners onErrorFromApi (listeners this) chatId reason in
      (outcome, BotSendMessage chatId htmlMessage "HTML" :: calls)
  end.

(** The [for .. of] loop over the administrators, as their user ids. *)
Fixpoint admins_loop (admins : list Z) (userId : Z) : bool :=
  match admins with
  | [] => false
  | adminId :: rest =>
      if adminId =? userId then true else admins_loop rest userId
  end.

(** [userIsAllowedToExecuteCommand], lines 80 to 93.
    [getChatAdministrators chatId] is how the promise of
    [bot.getChatAdministrators(chatId)] settles, as the list of
    [admin.user.id]. *)
Definition userIsAllowedToExecuteCommand
    (getChatAdministrators : Z -> completion (list Z))
    (msg : Message) (botCommand : BotCommand) : completion bool * list Call :=
  if negb (adminOnly botCommand)
     || String.eqb (chat_type msg) "private"
     || (from_id msg =? developerUserId)
  then (Normal true, [])
  else
    match getChatAdministrators (chat_id msg) with
    | Normal admins =>
        (Normal (admins_loop admins (from_id msg)),
         [GetChatAdministrators (chat_id msg)])
    | Throw err => (Throw err, [GetChatAdministrators (chat_id msg)])
    end.

Definition failed_admins_reply : string :=
  "⚠️ Failed to retrieve admin list! See server console.".

Definition admins_only_reply : string :=
  "🚫 This option is only available to admins!".

(** The text before the reason in the [console.error] of [executeCommand]:
    it ends with a line feed. *)
Definition failed_admins_log : string :=
  String.append "Failed to retrieve admin list!"
                (String (ascii_of_nat 10) EmptyString).

(** [executeCommand], lines 57 to 72: how the promise it returns settles,
    and the calls made on the way. *)
Definition executeCommand
    (getChatAdministrators : Z -> completion (list Z))
    (msg : Message) (match_ : list string) (botCommand : BotCommand)
  : completion string * list Call :=
  match userIsAllowedToExecuteCommand getChatAdministrators msg botCommand with
  | (Throw err, calls) =>
      (Normal failed_admins_reply,
       calls ++ [ConsoleError failed_admins_log err])
  | (Normal userIsAllowed, calls) =>
      if negb userIsAllowed then (Normal admins_only_reply, calls)
      else (action botCommand msg match_,
            calls ++ [CommandAction (name botCommand)])
  end.

(** What a caller of [getBotUsername] is handed: a promise fulfilled with
    the cached name, or the promise stored in [botUsernamePromise]. *)
Inductive Answer : Type :=
| Fulfilled (username : string)
| Follows (promise : Promise).

(** [getBotUsername], lines 95 to 108, up to its [return]. *)
Definition getBotUsername (this : t) : Answer * t * list Call :=
  if negb (String.eqb (cachedBotUsername this) "") then
    (Fulfilled (cachedBotUsername this), this, [])
  else
    match botUsernamePromise this with
    | Some promise => (Follows promise, this, [])
    | None =>
        (Follows Pending,
         {| listeners := listeners this;
            cachedBotUsername := cachedBotUsername this;
            botUsernamePromise := Some Pending |},
         [GetMe])
    end.

(** The [then] callback of [getBotUsername], run with [me.username] when
    the request is fulfilled. *)
Definition onGetMe (username : string) (this : t) : t :=
  {| listeners := listeners this;
     cachedBotUsername := username;
     botUsernamePromise := None |}.

(** What happens to a client over time, as far as the bot's username goes:
    somebody calls [getBotUsername], or the request in flight is fulfilled
    or rejected.  A settlement with no request in flight does not occur
    and changes nothing. *)
Inductive Event : Type :=
| CallGetBotUsername
| GetMeFulfilled (username : string)
| GetMeRejected.

Definition step (e : Event) (this : t) : t * list Call :=
  match e with
  | CallGetBotUsername =>
      let '(_, this', calls) := getBotUsername this in (this', calls)
  | GetMeFulfilled username =>
      match botUsernamePromise this with
      | Some Pending => (onGetMe username this, [])
      | _ => (this, [])
      end
  | GetMeRejected =>
      match botUsernamePromise this with
      | Some Pending =>
          ({| listeners := listeners this;
              cachedBotUsername := cachedBotUsername this;
              botUsernamePromise := Some Rejected |}, [])
      | _ => (this, [])
      end
  end.

(** The client after a sequence of events, and the calls made during it. *)
Fixpoint run (events : list Event) (this : t) : t * list Call :=
  match events with
  | [] => (this, [])
  | e :: rest =>
      let (this1, calls1) := step e this in
      let (this2, calls2) := run rest this1 in
      (this2, calls1 ++ calls2)
  end.

(** The client after the subscriptions [subs], made in this order. *)
Definition subscribe_all (subs : list Listener) (this : t) : t :=
  fold_left (fun client subscriber => subscribe subscriber client) subs this.

(** Counting the requests for the bot's name and their fulfilments. *)
Definition is_GetMe (c : Call) : bool :=
  match c with
  | GetMe => true
  | _ => false
  end.

Definition is_fulfilment (e : Event) : bool :=
  match e with
  | GetMeFulfilled _ => true
  | _ => false
  end.

End TelegramClient.

(* ================================================================== *)
(** * Class [AbstractPlugin]: event subscriptions *)
(* ================================================================== *)

Module Plugin.

Section AbstractPlugin.
(** The enumeration [PluginEvent] with the equality of [Map] keys, and
    the type of event arguments; both are declared outside the embedded
    files. *)
Variable PluginEvent : Type.
Variable event_eqb : PluginEvent -> PluginEvent -> bool.
Variable PluginEventArguments : Type.

(** An event function, known by its reference. *)
Definition EventFn : Type := Z.

(** [Map.prototype.get] *)
Fixpoint map_get (m : list (PluginEvent * EventFn)) (key : PluginEvent)
  : option EventFn :=
  match m with
  | [] => None
  | (k, v) :: rest => if event_eqb k key then Some v else map_get rest key
  end.

(** [Map.prototype.set]: the value of a key already present is replaced
    where it stands, a new key goes last. *)
Fixpoint map_set (m : list (PluginEvent * EventFn)) (key : PluginEvent)
    (value : EventFn) : list (PluginEvent * EventFn) :=
  match m with
  | [] => [(key, value)]
  | (k, v) :: rest =>
      if event_eqb k key then (k, value) :: rest
      else (k, v) :: map_set rest key value
  end.

(** The fields of a plugin that the event methods use. *)
Record t : Type := mk {
  name : string;
  version : string;
  pluginEventTriggers : list (PluginEvent * EventFn)
}.

(** [constructor(name, version)] *)
Definition constructor (name0 version0 : string) : t :=
  {| name := name0; version := version0; pluginEventTriggers := [] |}.

(** [subscribeToPluginEvent(event, eventFn)] *)
Definition subscribeToPluginEvent (event : PluginEvent) (eventFn : EventFn)
    (this : t) : t :=
  {| name := name this; version := version this;
     pluginEventTriggers := map_set (pluginEventTriggers this) event eventFn |}.

(** An event function applied to its arguments. *)
Inductive Invocation : Type :=
| Invoke (fn : EventFn) (eventArgs : PluginEventArguments).

(** [triggerEvent(event, eventArgs)]: the event functions it applies. *)
Definition triggerEvent (event : PluginEvent)
    (eventArgs : PluginEventArguments) (this : t) : list Invocation :=
  match map_get (pluginEventTriggers this) event with
  | Some fn => [Invoke fn eventArgs]
  | None => []
  end.

(** A plugin after the subscriptions [subs], made in this order. *)
Definition subscribe_all (subs : list (PluginEvent * EventFn)) (this : t) : t :=
  fold_left (fun plugin sub => subscribeToPluginEvent (fst sub) (snd sub) plugin)
            subs this.

End AbstractPlugin.

Arguments map_get {PluginEvent} event_eqb m key.
Arguments map_set {PluginEvent} event_eqb m key value.
Arguments mk {PluginEvent} name version pluginEventTriggers.
Arguments name {PluginEvent} _.
Arguments version {PluginEvent} _.
Arguments pluginEventTriggers {PluginEvent} _.
Arguments constructor {PluginEvent} name0 version0.
Arguments subscribeToPluginEvent {PluginEvent} event_eqb event eventFn this.
Arguments Invoke {PluginEventArguments} fn eventArgs.
Arguments triggerEvent {PluginEvent} event_eqb {PluginEventArguments}
  event eventArgs this.
Arguments subscribe_all {PluginEvent} event_eqb subs this.

End Plugin.

(* ================================================================== *)
(** * Collaborators that return *)
(* ================================================================== *)

(** [always_returns op]: whatever the world, the collaborator [op]
    returns, it does not throw. *)
Definition always_returns {World A : Type}
    (op : World -> JS.completion A * World) : Prop :=
  forall w, exists a w', op w = (JS.Normal a, w').

(* ================================================================== *)
(** * Facts about the JavaScript fragment *)
(* ================================================================== *)

Section NumberFacts.
Import JS.

Lemma Qtrunc_inject_Z (q : Q) (z : Z) :
  (q == inject_Z z)%Q -> Qtrunc q = z.
Proof.
  destruct q as [num den]. unfold Qeq, Qtrunc. simpl. intros H.
  rewrite Z.mul_1_r in H. subst num. apply Z.quot_mul. discriminate.
Qed.

(** [x % 1 !== 0] is false exactly on the integers. *)
Lemma rem_1_whole (x : number) :
  strict_neq (rem x (of_Z 1)) (of_Z 0) = false <-> exists z, is_int x z.
Proof.
  destruct x as [a | | |]; simpl;
    try (split; [discriminate | intros [z []]]).
  unfold strict_neq. simpl. rewrite negb_false_iff, Qeq_bool_iff.
  change (inject_Z 1) with 1%Q. change (inject_Z 0) with 0%Q. split.
  - intros H. exists (Qtrunc (a / 1)). simpl.
    generalize dependent (inject_Z (Qtrunc (a / 1))). intros k H. lra.
  - intros [z Hz]. simpl in Hz.
    assert (Ht : Qtrunc (a / 1) = z).
    { apply Qtrunc_inject_Z. rewrite Hz. unfold Qeq. simpl. ring. }
    rewrite Ht. lra.
Qed.

Lemma lt_Fin (a b : Q) : lt (Fin a) (Fin b) = true <-> (a < b)%Q.
Proof.
  simpl. rewrite Qlt_alt. destruct (a ?= b)%Q; split; congruence.
Qed.

Lemma lt_int (x y : number) (i j : Z) :
  is_int x i -> is_int y j -> (lt x y = true <-> i < j).
Proof.
  destruct x as [a | | |]; try (simpl; tauto).
  destruct y as [b | | |]; try (simpl; tauto).
  intros Ha Hb. simpl in Ha, Hb.
  rewrite lt_Fin, Ha, Hb. unfold Qlt. simpl. lia.
Qed.

Lemma is_int_of_Z (z : Z) : is_int (of_Z z) z.
Proof. simpl. reflexivity. Qed.

Lemma is_int_unique (x : number) (i j : Z) :
  is_int x i -> is_int x j -> i = j.
Proof.
  destruct x as [a | | |]; simpl; try tauto.
  intros Hi Hj. apply inject_Z_injective. now rewrite <- Hi, <- Hj.
Qed.

Lemma strict_eq_int (x y : number) (i j : Z) :
  is_int x i -> is_int y j -> (strict_eq x y = true <-> i = j).
Proof.
  destruct x as [a | | |]; try (simpl; tauto).
  destruct y as [b | | |]; try (simpl; tauto).
  intros Ha Hb. simpl in *. rewrite Qeq_bool_iff, Ha, Hb.
  apply inject_Z_injective.
Qed.

(** The range guard passes exactly the integers between the bounds. *)
Lemma out_of_range_false (x : number) (lo hi : Z) :
  out_of_range x lo hi = false <-> exists z, is_int x z /\ lo <= z <= hi.
Proof.
  unfold out_of_range, gt.
  rewrite !orb_false_iff, rem_1_whole. split.
  - intros [[[z Hz] Hlo] Hhi]. exists z. split; [exact Hz|].
    pose proof (lt_int x (of_Z lo) z lo Hz (is_int_of_Z lo)) as L.
    pose proof (lt_int (of_Z hi) x hi z (is_int_of_Z hi) Hz) as G.
    destruct (lt x (of_Z lo)); [discriminate|].
    destruct (lt (of_Z hi) x); [discriminate|].
    split.
    + destruct (Z_lt_le_dec z lo) as [C|C]; [|exact C].
      apply L in C. discriminate.
    + destruct (Z_lt_le_dec hi z) as [C|C]; [|exact C].
      apply G in C. discriminate.
  - intros [z [Hz [Hlo Hhi]]].
    pose proof (lt_int x (of_Z lo) z lo Hz (is_int_of_Z lo)) as L.
    pose proof (lt_int (of_Z hi) x hi z (is_int_of_Z hi) Hz) as G.
    repeat split.
    + now exists z.
    + destruct (lt x (of_Z lo)); [|reflexivity].
      assert (z < lo) by now apply L. lia.
    + destruct (lt (of_Z hi) x); [|reflexivity].
      assert (hi < z) by now apply G. lia.
Qed.

Lemma out_of_range_true (x : number) (lo hi : Z) :
  out_of_range x lo hi = true <->
  ~ exists z, is_int x z /\ lo <= z <= hi.
Proof.
  rewrite <- out_of_range_false.
  destruct (out_of_range x lo hi); split; congruence.
Qed.

End NumberFacts.

(* ================================================================== *)
(** * Facts about [DankTime] *)
(* ================================================================== *)

Section ArrayFacts.
Import JS.

Lemma indexOf_from_found (arr : list string) (x : string) (i : Z) :
  In x arr -> i <= indexOf_from arr x i.
Proof.
  revert i. induction arr as [|y rest IH]; intros i Hin; [destruct Hin|].
  simpl. destruct (String.eqb_spec y x) as [E|E]; [lia|].
  destruct Hin as [H|H]; [congruence|].
  specialize (IH (i + 1) H). lia.
Qed.

Lemma indexOf_from_missing (arr : list string) (x : string) (i : Z) :
  ~ In x arr -> indexOf_from arr x i = -1.
Proof.
  revert i. induction arr as [|y rest IH]; intros i Hin; [reflexivity|].
  simpl. destruct (String.eqb_spec y x) as [E|E].
  - exfalso. apply Hin. now left.
  - apply IH. intros H. apply Hin. now right.
Qed.

(** [arr.indexOf(x) === -1] says that [x] is not in [arr]. *)
Lemma indexOf_absent (arr : list string) (x : string) :
  (indexOf arr x =? -1) = true <-> ~ In x arr.
Proof.
  unfold indexOf. rewrite Z.eqb_eq. split.
  - intros H Hin. apply (indexOf_from_found arr x 0) in Hin. lia.
  - apply indexOf_from_missing.
Qed.

Lemma add_unique_absent (stored : list string) (x : string) :
  ~ In x stored -> DankTime.add_unique stored x = stored ++ [x].
Proof.
  intros H. unfold DankTime.add_unique.
  apply indexOf_absent in H. now rewrite H.
Qed.

Lemma add_unique_present (stored : list string) (x : string) :
  In x stored -> DankTime.add_unique stored x = stored.
Proof.
  intros H. unfold DankTime.add_unique.
  destruct (indexOf stored x =? -1) eqn:E; [|reflexivity].
  apply indexOf_absent in E. contradiction.
Qed.

Lemma add_unique_cases (stored : list string) (x : string) :
  (In x stored /\ DankTime.add_unique stored x = stored) \/
  (~ In x stored /\ DankTime.add_unique stored x = stored ++ [x]).
Proof.
  destruct (in_dec string_dec x stored) as [H|H].
  - left. split; [exact H | now apply add_unique_present].
  - right. split; [exact H | now apply add_unique_absent].
Qed.

Lemma fold_add_unique_NoDup (given stored : list string) :
  NoDup stored -> NoDup (fold_left DankTime.add_unique given stored).
Proof.
  revert stored. induction given as [|x rest IH]; intros stored H;
    [exact H|].
  simpl. apply IH.
  destruct (add_unique_cases stored x) as [[_ E]|[Hx E]]; rewrite E.
  - exact H.
  - apply NoDup_app; [exact H | repeat constructor; intros [] | ].
    intros y Hy [Hyx|[]]. subst y. contradiction.
Qed.

Lemma fold_add_unique_In (given stored : list string) (x : string) :
  In x (fold_left DankTime.add_unique given stored) <->
  In x stored \/ In x given.
Proof.
  revert stored. induction given as [|y rest IH]; intros stored; simpl.
  - tauto.
  - rewrite IH.
    destruct (add_unique_cases stored y) as [[Hy E]|[Hy E]]; rewrite E.
    + split; [tauto|]. intros [H|[H|H]]; subst; tauto.
    + rewrite in_app_iff. simpl. tauto.
Qed.

(** On texts without repetition the fold stores them all, in order. *)
Lemma fold_add_unique_fresh (given stored : list string) :
  NoDup (stored ++ given) ->
  fold_left DankTime.add_unique given stored = stored ++ given.
Proof.
  revert stored. induction given as [|x rest IH]; intros stored H; simpl.
  - now rewrite app_nil_r.
  - assert (Hx : ~ In x stored).
    { apply NoDup_remove_2 in H. intros C. apply H.
      apply in_app_iff. now left. }
    rewrite (add_unique_absent _ _ Hx).
    rewrite IH; rewrite <- app_assoc; simpl; [reflexivity | exact H].
Qed.

Lemma unique_texts_NoDup (given : list string) :
  NoDup (DankTime.unique_texts given).
Proof. apply fold_add_unique_NoDup. constructor. Qed.

Lemma unique_texts_In (given : list string) (x : string) :
  In x (DankTime.unique_texts given) <-> In x given.
Proof.
  unfold DankTime.unique_texts. rewrite fold_add_unique_In. simpl. tauto.
Qed.

Lemma unique_texts_idempotent (given : list string) :
  DankTime.unique_texts (DankTime.unique_texts given) =
  DankTime.unique_texts given.
Proof.
  unfold DankTime.unique_texts at 1.
  apply (fold_add_unique_fresh _ []). simpl. apply unique_texts_NoDup.
Qed.

End ArrayFacts.

Section DankTimeFacts.
Import JS.
Import DankTime.

Lemma forEach_add_text (given : list string) (this : t) :
  DankTime.forEach given
    (fun text this' =>
       if indexOf (texts this') text =? -1
       then push_text text this'
       else DankTime.ret tt this') this
  = (Normal tt,
     {| hour := hour this; minute := minute this;
        texts := fold_left add_unique given (texts this);
        _points := _points this |}).
Proof.
  revert this. induction given as [|x rest IH]; intros this.
  - destruct this; reflexivity.
  - simpl. unfold DankTime.bind at 1.
    unfold add_unique at 2.
    destruct (indexOf (texts this) x =? -1).
    + unfold push_text. rewrite IH. reflexivity.
    + unfold DankTime.ret at 1. rewrite IH. reflexivity.
Qed.

(** The setter, by cases on its guard. *)
Lemma set_points_eq (p : number) (this : t) :
  set_points p this =
  if out_of_range p 1 100
  then (Throw (RangeError points_message), this)
  else (Normal tt,
        {| hour := hour this; minute := minute this;
           texts := texts this; _points := Some p |}).
Proof.
  unfold set_points, DankTime.bind, throw_if, out_of_range.
  destruct (strict_neq (rem p (of_Z 1)) (of_Z 0)
            || lt p (of_Z 1) || gt p (of_Z 100)); reflexivity.
Qed.

(** The constructor, by cases on its guards in the order it tests them. *)
Lemma constructor_eq (h m : number) (given : list string)
    (p : option number) :
  constructor h m given p =
  if out_of_range h 0 23 then Throw (RangeError hour_message)
  else if out_of_range m 0 59 then Throw (RangeError minute_message)
  else if array_length given <? 1 then Throw (RangeError texts_message)
  else if out_of_range (points_or_default p) 1 100
       then Throw (RangeError points_message)
  else Normal {| hour := h; minute := m;
                 texts := unique_texts given;
                 _points := Some (points_or_default p) |}.
Proof.
  unfold constructor, constructor_body.
  unfold DankTime.bind at 1. unfold throw_if at 1.
  cbn [hour minute]. fold (out_of_range h 0 23).
  destruct (out_of_range h 0 23); [reflexivity|].
  unfold DankTime.ret at 1.
  unfold DankTime.bind at 1. unfold throw_if at 1.
  fold (out_of_range m 0 59).
  destruct (out_of_range m 0 59); [reflexivity|].
  unfold DankTime.ret at 1.
  unfold DankTime.bind at 1. unfold throw_if at 1.
  destruct (array_length given <? 1); [reflexivity|].
  unfold DankTime.ret at 1.
  unfold DankTime.bind at 1. rewrite forEach_add_text.
  rewrite set_points_eq. cbn [hour minute texts _points].
  fold (unique_texts given).
  destruct (out_of_range (points_or_default p) 1 100); reflexivity.
Qed.

Lemma array_length_empty (arr : list string) :
  (array_length arr <? 1) = true <-> arr = [].
Proof.
  unfold array_length. rewrite Z.ltb_lt.
  destruct arr; simpl; split; (reflexivity || discriminate || lia).
Qed.

(** What a successful construction says about its arguments and its
    result. *)
Lemma constructor_Normal (h m : number) (given : list string)
    (p : option number) (this : t) :
  constructor h m given p = Normal this <->
  whole_between 0 23 h /\ whole_between 0 59 m /\ given <> [] /\
  whole_between 1 100 (points_or_default p) /\
  this = {| hour := h; minute := m; texts := unique_texts given;
            _points := Some (points_or_default p) |}.
Proof.
  rewrite constructor_eq. unfold whole_between.
  rewrite <- !out_of_range_false.
  destruct (out_of_range h 0 23);
    [split; [discriminate | intros [? _]; discriminate]|].
  destruct (out_of_range m 0 59);
    [split; [discriminate | intros [_ [? _]]; discriminate]|].
  destruct (array_length given <? 1) eqn:L.
  { apply array_length_empty in L.
    split; [discriminate | intros [_ [_ [? _]]]; contradiction]. }
  destruct (out_of_range (points_or_default p) 1 100);
    [split; [discriminate | intros [_ [_ [_ [? _]]]]; discriminate]|].
  split.
  - intros H. injection H as <-. repeat split.
    intros E. apply array_length_empty in E. congruence.
  - intros [_ [_ [_ [_ ->]]]]. reflexivity.
Qed.

(** What every constructed instance satisfies. *)
Lemma constructed_valid (this : t) :
  constructed this ->
  whole_between 0 23 (hour this) /\ whole_between 0 59 (minute this) /\
  NoDup (texts this) /\ texts this <> [] /\
  exists p, _points this = Some p /\ whole_between 1 100 p.
Proof.
  intros (h & m & given & p & H).
  apply constructor_Normal in H as (Hh & Hm & Hne & Hp & ->).
  cbn [hour minute texts _points]. repeat split; try assumption.
  - apply unique_texts_NoDup.
  - intros E. destruct given as [|x rest]; [congruence|].
    assert (Hx : In x (unique_texts (x :: rest)))
      by (apply unique_texts_In; now left).
    rewrite E in Hx. destruct Hx.
  - now exists (points_or_default p).
Qed.

(** No call assigns [hour], [minute] or [texts]. *)
Lemma after_call_keeps (c : call) (this : t) :
  hour (after_call c this) = hour this /\
  minute (after_call c this) = minute this /\
  texts (after_call c this) = texts this.
Proof.
  destruct c; simpl; try tauto.
  rewrite set_points_eq. destruct (out_of_range points 1 100); simpl; tauto.
Qed.

Lemma after_calls_keeps (cs : list call) (this : t) :
  hour (after_calls cs this) = hour this /\
  minute (after_calls cs this) = minute this /\
  texts (after_calls cs this) = texts this.
Proof.
  unfold after_calls. revert this.
  induction cs as [|c rest IH]; intros this; simpl; [tauto|].
  destruct (IH (after_call c this)) as (Hh & Hm & Ht).
  destruct (after_call_keeps c this) as (Hh' & Hm' & Ht').
  repeat split; congruence.
Qed.

(** The stored points stay a whole number between 1 and 100. *)
Lemma after_call_points (c : call) (this : t) :
  (exists p, _points this = Some p /\ whole_between 1 100 p) ->
  exists p, _points (after_call c this) = Some p /\ whole_between 1 100 p.
Proof.
  intros H. destruct c; simpl; try exact H.
  rewrite set_points_eq.
  destruct (out_of_range points 1 100) eqn:E; simpl; [exact H|].
  exists points. split; [reflexivity|]. now apply out_of_range_false.
Qed.

Lemma after_calls_points (cs : list call) (this : t) :
  (exists p, _points this = Some p /\ whole_between 1 100 p) ->
  exists p, _points (after_calls cs this) = Some p /\ whole_between 1 100 p.
Proof.
  unfold after_calls. revert this.
  induction cs as [|c rest IH]; intros this H; simpl; [exact H|].
  apply IH. now apply after_call_points.
Qed.

Lemma instance_valid (this : t) :
  instance this ->
  whole_between 0 23 (hour this) /\ whole_between 0 59 (minute this) /\
  NoDup (texts this) /\ texts this <> [] /\
  exists p, _points this = Some p /\ whole_between 1 100 p.
Proof.
  intros (this0 & calls & V & ->).
  apply constructed_valid in V as (Hh & Hm & Hnd & Hne & Hp).
  destruct (after_calls_keeps calls this0) as (-> & -> & ->).
  repeat (split; [assumption|]). now apply after_calls_points.
Qed.

Lemma whole_between_of_Z (lo hi z : Z) :
  whole_between lo hi (of_Z z) <-> lo <= z <= hi.
Proof.
  unfold whole_between. split.
  - intros (k & Hk & Hr).
    now rewrite (is_int_unique _ _ _ (is_int_of_Z z) Hk).
  - intros H. exists z. split; [apply is_int_of_Z | exact H].
Qed.

Lemma hasText_loop_spec (toUpperCase : string -> string)
    (stored : list string) (text : string) :
  hasText_loop toUpperCase stored text = true <->
  exists text2, In text2 stored /\ toUpperCase text2 = text.
Proof.
  induction stored as [|y rest IH]; simpl.
  - split; [discriminate | intros (? & [] & _)].
  - destruct (String.eqb_spec (toUpperCase y) text) as [E|E].
    + split; [|reflexivity]. intros _. exists y. split; [now left | exact E].
    + rewrite IH. split.
      * intros (x & Hx & Hu). exists x. split; [now right | exact Hu].
      * intros (x & [Hx|Hx] & Hu); [congruence|].
        exists x. now split.
Qed.

Lemma compare_int (a b : t) (ha ma hb mb : Z) :
  is_int (hour a) ha -> is_int (minute a) ma ->
  is_int (hour b) hb -> is_int (minute b) mb ->
  DankTime.compare a b =
  if ha <? hb then -1 else if hb <? ha then 1
  else if ma <? mb then -1 else if mb <? ma then 1 else 0.
Proof.
  intros Ha Ma Hb Mb. unfold DankTime.compare, gt.
  assert (E : forall x y i j, is_int x i -> is_int y j -> lt x y = (i <? j)).
  { intros x y i j Hx Hy. apply eq_iff_eq_true.
    rewrite Z.ltb_lt. now apply lt_int. }
  rewrite (E _ _ _ _ Ha Hb), (E _ _ _ _ Hb Ha),
          (E _ _ _ _ Ma Mb), (E _ _ _ _ Mb Ma).
  reflexivity.
Qed.

End DankTimeFacts.

(* ================================================================== *)
(** * The specification's properties of [DankTime] *)
(* ================================================================== *)

Section DankTimeClaims.
Import JS.
Import DankTime.

Local Open Scope string_scope.
Local Open Scope Z_scope.

Local Ltac in_range := apply whole_between_of_Z; lia.
Local Ltac not_in_range :=
    let H := fresh in intros H; apply whole_between_of_Z in H; lia.

(** C3. Construction validates and never clamps: when the hour is not a
    whole number between 0 and 23, or the minute is not a whole number
    between 0 and 59, or the list of texts is empty, or the points are not
    a whole number between 1 and 100, [new DankTime(..)] throws a
    [RangeError] and returns no instance. *)
Theorem constructor_rejects_invalid_input
    (h m : number) (given : list string) (p : option number) :
  ~ whole_between 0 23 h \/ ~ whole_between 0 59 m \/ given = [] \/
  ~ whole_between 1 100 (points_or_default p) ->
  (exists message, constructor h m given p = Throw (RangeError message)) /\
  (forall this, constructor h m given p <> Normal this).
Proof.
  intros Hbad.
  assert (Hno : forall this, constructor h m given p <> Normal this).
  { intros this H. apply constructor_Normal in H as (Hh & Hm & Hne & Hp & _).
    tauto. }
  split; [|exact Hno].
  rewrite constructor_eq in *.
  destruct (out_of_range h 0 23); [now eexists|].
  destruct (out_of_range m 0 59); [now eexists|].
  destruct (array_length given <? 1); [now eexists|].
  destruct (out_of_range (points_or_default p) 1 100); [now eexists|].
  exfalso. eapply Hno. reflexivity.
Qed.

(** The five inputs the specification names: hour 24, minute -1, points 0,
    points 101 and no texts. *)
Lemma constructor_rejects_invalid_input_witness :
  (exists message,
     constructor (of_Z 24) (of_Z 0) ["dank"] (Some (of_Z 1))
     = Throw (RangeError message)) /\
  (exists message,
     constructor (of_Z 0) (of_Z (-1)) ["dank"] (Some (of_Z 1))
     = Throw (RangeError message)) /\
  (exists message,
     constructor (of_Z 0) (of_Z 0) ["dank"] (Some (of_Z 0))
     = Throw (RangeError message)) /\
  (exists message,
     constructor (of_Z 0) (of_Z 0) ["dank"] (Some (of_Z 101))
     = Throw (RangeError message)) /\
  (exists message,
     constructor (of_Z 0) (of_Z 0) [] (Some (of_Z 1))
     = Throw (RangeError message)).
Proof.
  repeat split.
  - apply (constructor_rejects_invalid_input
             (of_Z 24) (of_Z 0) ["dank"] (Some (of_Z 1))).
    left. not_in_range.
  - apply (constructor_rejects_invalid_input
             (of_Z 0) (of_Z (-1)) ["dank"] (Some (of_Z 1))).
    right; left. not_in_range.
  - apply (constructor_rejects_invalid_input
             (of_Z 0) (of_Z 0) ["dank"] (Some (of_Z 0))).
    right; right; right. not_in_range.
  - apply (constructor_rejects_invalid_input
             (of_Z 0) (of_Z 0) ["dank"] (Some (of_Z 101))).
    right; right; right. not_in_range.
  - apply (constructor_rejects_invalid_input
             (of_Z 0) (of_Z 0) [] (Some (of_Z 1))).
    right; right; left. reflexivity.
Defined.

(** C6. For a whole hour between 0 and 23, a whole minute between 0 and
    59, at least one text and whole points between 1 and 100 (given, or
    left to the default), construction returns an instance, and
    [fromJSON] of its [toJSON] returns an instance with the same hour,
    minute, texts and points. *)
Theorem toJSON_fromJSON_round_trip
    (h m : number) (given : list string) (p : option number) :
  whole_between 0 23 h -> whole_between 0 59 m -> given <> [] ->
  whole_between 1 100 (points_or_default p) ->
  exists this,
    constructor h m given p = Normal this /\
    fromJSON (toJSON this) = Normal this.
Proof.
  intros Hh Hm Hne Hp.
  set (this := {| hour := h; minute := m; texts := unique_texts given;
                  _points := Some (points_or_default p) |}).
  assert (Hc : constructor h m given p = Normal this)
    by (apply constructor_Normal; repeat split; assumption).
  exists this. split; [exact Hc|].
  assert (V : constructed this) by (now exists h, m, given, p).
  apply constructed_valid in V as (_ & _ & _ & Hne' & _).
  unfold fromJSON, toJSON, get_points. cbn [lit_hour lit_minute lit_texts lit_points].
  apply constructor_Normal. subst this. cbn [hour minute texts _points] in *.
  repeat split; try assumption.
  now rewrite unique_texts_idempotent.
Qed.

Lemma toJSON_fromJSON_round_trip_witness :
  exists this,
    constructor (of_Z 13) (of_Z 37) ["dank"; "Dank"; "dank"] (Some (of_Z 5))
    = Normal this /\
    fromJSON (toJSON this) = Normal this.
Proof.
  apply (toJSON_fromJSON_round_trip
           (of_Z 13) (of_Z 37) ["dank"; "Dank"; "dank"] (Some (of_Z 5))).
  - in_range.
  - in_range.
  - discriminate.
  - in_range.
Defined.

(** C7. [compare] orders instances by hour, then minute: the hours and
    minutes of two instances (constructed, and possibly assigned new
    points since) are whole numbers, the result is negative
    exactly when (hour, minute) of the first comes before that of the
    second in the lexicographic order, positive exactly when it comes
    after, and 0 exactly when hour and minute are equal.  So (9,5), (9,30),
    (10,0) ascend and (9,5) compared with (9,5) gives 0. *)
Theorem compare_orders_by_hour_then_minute :
  (forall a b, instance a -> instance b ->
     exists ha ma hb mb,
       is_int (hour a) ha /\ is_int (minute a) ma /\
       is_int (hour b) hb /\ is_int (minute b) mb /\
       (DankTime.compare a b < 0 <-> ha < hb \/ (ha = hb /\ ma < mb)) /\
       (DankTime.compare a b > 0 <-> hb < ha \/ (ha = hb /\ mb < ma)) /\
       (DankTime.compare a b = 0 <-> ha = hb /\ ma = mb)) /\
  (forall given p a b c,
     constructor (of_Z 9) (of_Z 5) given p = Normal a ->
     constructor (of_Z 9) (of_Z 30) given p = Normal b ->
     constructor (of_Z 10) (of_Z 0) given p = Normal c ->
     DankTime.compare a b < 0 /\ DankTime.compare b c < 0 /\
     DankTime.compare a c < 0 /\ DankTime.compare a a = 0).
Proof.
  split.
  - intros a b Va Vb.
    apply instance_valid in Va as ([ha [Ha _]] & [ma [Ma _]] & _).
    apply instance_valid in Vb as ([hb [Hb _]] & [mb [Mb _]] & _).
    exists ha, ma, hb, mb. repeat (split; [assumption|]).
    rewrite (compare_int a b ha ma hb mb Ha Ma Hb Mb).
    destruct (Z.ltb_spec ha hb); [lia|].
    destruct (Z.ltb_spec hb ha); [lia|].
    destruct (Z.ltb_spec ma mb); [lia|].
    destruct (Z.ltb_spec mb ma); lia.
  - intros given p a b c Ha Hb Hc.
    apply constructor_Normal in Ha as (_ & _ & _ & _ & ->).
    apply constructor_Normal in Hb as (_ & _ & _ & _ & ->).
    apply constructor_Normal in Hc as (_ & _ & _ & _ & ->).
    repeat split.
Qed.

Lemma compare_orders_by_hour_then_minute_witness :
  let a := {| hour := of_Z 9; minute := of_Z 30; texts := ["dank"];
              _points := Some (of_Z 7) |} in
  let b := {| hour := of_Z 10; minute := of_Z 0; texts := ["dank"];
              _points := Some (of_Z 1) |} in
  exists ha ma hb mb,
    is_int (hour a) ha /\ is_int (minute a) ma /\
    is_int (hour b) hb /\ is_int (minute b) mb /\
    (DankTime.compare a b < 0 <-> ha < hb \/ (ha = hb /\ ma < mb)) /\
    (DankTime.compare a b > 0 <-> hb < ha \/ (ha = hb /\ mb < ma)) /\
    (DankTime.compare a b = 0 <-> ha = hb /\ ma = mb).
Proof.
  intros a b.
  apply (proj1 compare_orders_by_hour_then_minute a b).
  - exists {| hour := of_Z 9; minute := of_Z 30; texts := ["dank"];
              _points := Some (of_Z 1) |}, [SetPoints (of_Z 7)].
    split; [|reflexivity].
    exists (of_Z 9), (of_Z 30), ["dank"], None. reflexivity.
  - exists b, []. split; [|reflexivity].
    exists (of_Z 10), (of_Z 0), ["dank"], None. reflexivity.
Defined.

(** C8. [hasText] is case-insensitive: whatever [toUpperCase] does to
    strings, [hasText] answers true exactly when some stored text and the
    query have the same upper-cased form; an instance built with the text
    "Potato" answers true to "POTATO". *)
Theorem hasText_case_insensitive :
  (forall (toUpperCase : string -> string) (this : t) (text : string),
     hasText toUpperCase this text = true <->
     exists text2,
       In text2 (texts this) /\ toUpperCase text2 = toUpperCase text) /\
  (exists this,
     constructor (of_Z 0) (of_Z 0) ["Potato"] None = Normal this /\
     hasText toUpperCase_ascii this "POTATO" = true /\
     hasText toUpperCase_ascii this "potatoes" = false).
Proof.
  split.
  - intros toUpperCase this text. unfold hasText.
    apply hasText_loop_spec.
  - eexists. split; [reflexivity|]. split; reflexivity.
Qed.

(** C10. Assigning [p] to [points] returns normally exactly when [p] is a
    whole number between 1 and 100, and then [p] is what is stored;
    otherwise it throws the [RangeError] of the setter and leaves the
    instance as it was.  Hence, whatever is called on a constructed
    instance, its points are a whole number between 1 and 100. *)
Theorem points_setter_keeps_points_in_range :
  (forall this p,
     fst (set_points p this) = Normal tt <-> whole_between 1 100 p) /\
  (forall this p,
     whole_between 1 100 p ->
     get_points (snd (set_points p this)) = Some p) /\
  (forall this p,
     ~ whole_between 1 100 p ->
     set_points p this = (Throw (RangeError points_message), this)) /\
  (forall this calls,
     constructed this ->
     exists p, get_points (after_calls calls this) = Some p /\
               whole_between 1 100 p).
Proof.
  split; [|split; [|split]].
  - intros this p. rewrite set_points_eq. split; intros H.
    + apply out_of_range_false.
      destruct (out_of_range p 1 100); [discriminate | reflexivity].
    + apply out_of_range_false in H. now rewrite H.
  - intros this p H. rewrite set_points_eq.
    apply out_of_range_false in H. now rewrite H.
  - intros this p H. rewrite set_points_eq.
    apply out_of_range_true in H. now rewrite H.
  - intros this calls V. unfold get_points. apply after_calls_points.
    now apply constructed_valid in V as (_ & _ & _ & _ & Hp).
Qed.

Lemma points_setter_keeps_points_in_range_witness :
  exists this,
    constructor (of_Z 23) (of_Z 59) ["dank"] None = Normal this /\
    (exists p,
       get_points
         (after_calls [SetPoints (of_Z 7); SetPoints (of_Z 0); ToJSON;
                       SetPoints (Fin (5 # 2)); SetPoints NaN] this)
       = Some p /\ whole_between 1 100 p) /\
    get_points (snd (set_points (of_Z 100) this)) = Some (of_Z 100) /\
    set_points (of_Z 101) this = (Throw (RangeError points_message), this).
Proof.
  eexists. split; [reflexivity|]. split; [|split].
  - apply (proj2 (proj2 (proj2 points_setter_keeps_points_in_range))).
    exists (of_Z 23), (of_Z 59), ["dank"], None. reflexivity.
  - apply (proj1 (proj2 points_setter_keeps_points_in_range)). in_range.
  - apply (proj1 (proj2 (proj2 points_setter_keeps_points_in_range))).
    not_in_range.
Defined.

(** C4, as the specification states it, fails: the three texts "Go", "go"
    and "GO" are equal under case-insensitive comparison, and the
    constructor stores all three. *)
Lemma texts_differing_in_case_are_all_stored :
  exists this,
    constructor (of_Z 9) (of_Z 5) ["Go"; "go"; "GO"] None = Normal this /\
    texts this = ["Go"; "go"; "GO"] /\
    List.length (texts this) <> 1%nat /\
    toUpperCase_ascii "Go" = toUpperCase_ascii "go" /\
    toUpperCase_ascii "go" = toUpperCase_ascii "GO".
Proof.
  eexists. split; [reflexivity|]. split; [reflexivity|].
  split; [discriminate|]. split; reflexivity.
Qed.

(** C4, amended. The constructor removes exact repetitions only: the
    stored texts are those given, each stored once (texts are compared by
    [===], so texts differing in case are different texts), and texts
    given without exact repetition are stored as given. *)
Theorem constructor_stores_each_text_once
    (h m : number) (given : list string) (p : option number) (this : t) :
  constructor h m given p = Normal this ->
  NoDup (texts this) /\
  (forall text, In text (texts this) <-> In text given) /\
  (NoDup given -> texts this = given).
Proof.
  intros H. apply constructor_Normal in H as (_ & _ & _ & _ & ->).
  cbn [texts]. split; [apply unique_texts_NoDup|].
  split; [intros text; apply unique_texts_In|].
  intros Hnd. apply (fold_add_unique_fresh given []). exact Hnd.
Qed.

Lemma constructor_stores_each_text_once_witness :
  exists this,
    constructor (of_Z 9) (of_Z 5) ["Go"; "go"; "Go"; "GO"; "go"] None
    = Normal this /\
    texts this = ["Go"; "go"; "GO"] /\
    NoDup (texts this) /\
    (forall text,
       In text (texts this) <-> In text ["Go"; "go"; "Go"; "GO"; "go"]).
Proof.
  eexists. split; [reflexivity|]. split; [reflexivity|].
  pose proof (constructor_stores_each_text_once
                (of_Z 9) (of_Z 5) ["Go"; "go"; "Go"; "GO"; "go"] None _
                eq_refl) as (Hnd & Hin & _).
  split; [exact Hnd | exact Hin].
Defined.

End DankTimeClaims.

(* ================================================================== *)
(** * Facts about the nightly update *)
(* ================================================================== *)

Section ServerFacts.
Import JS.
Import Server.

Variables World Chat : Type.
Variable env : Collaborators World Chat.

Local Ltac simpl_state := cbn [world trace fst snd].

Lemma forEach_app {A} (xs ys : list A) (f : A -> Action World Chat unit)
    (s : State World Chat) :
  forEach (xs ++ ys) f s =
  match forEach xs f s with
  | (Normal _, s1) => forEach ys f s1
  | (Throw e, s1) => (Throw e, s1)
  end.
Proof.
  revert s. induction xs as [|x rest IH]; intros s; [reflexivity|].
  simpl. unfold bind.
  destruct (f x s) as [[[]|e] s1]; [apply IH | reflexivity].
Qed.

(** A stopped room is passed over. *)
Lemma room_update_stopped (now : Z) (chat : Chat) (s : State World Chat) :
  running env chat (world s) = false ->
  nightlyUpdateOfChat env now chat s = (Normal tt, s).
Proof.
  intros H. unfold nightlyUpdateOfChat, bind, read. now rewrite H.
Qed.

(** A running room: the update returns exactly when the seven steps
    return one after the other, and then the seven calls are what was
    recorded. *)
Lemma room_update_running (now : Z) (chat : Chat)
    (s s' : State World Chat) :
  running env chat (world s) = true ->
  (nightlyUpdateOfChat env now chat s = (Normal tt, s') <->
   RoomCycle env now chat (world s) (world s') /\
   trace s' = trace s ++ cycle_calls now chat).
Proof.
  intros Hrun. unfold nightlyUpdateOfChat, bind, read, call, RoomCycle.
  rewrite Hrun. simpl_state. split.
  - destruct (unscheduleRandomDankTimesOfChat env chat (world s))
      as [[[]|e1] w1]; simpl_state; [|discriminate].
    destruct (unscheduleAutoLeaderboardsOfChat env chat w1)
      as [[[]|e2] w2] eqn:E2; simpl_state; [|discriminate].
    destruct (generateRandomDankTimes env chat w2)
      as [[[]|e3] w3] eqn:E3; simpl_state; [|discriminate].
    destruct (scheduleRandomDankTimesOfChat env chat w3)
      as [[[]|e4] w4] eqn:E4; simpl_state; [|discriminate].
    destruct (scheduleAutoLeaderboardsOfChat env chat w4)
      as [[[]|e5] w5] eqn:E5; simpl_state; [|discriminate].
    destruct (hardcoreModeCheck env chat now w5)
      as [[[]|e6] w6] eqn:E6; simpl_state; [|discriminate].
    destruct (removeUsersWithZeroScore env chat w6)
      as [[[]|e7] w7] eqn:E7; simpl_state; [|discriminate].
    intros H. injection H as <-. simpl_state. split.
    + exists w1, w2, w3, w4, w5, w6. repeat split; assumption.
    + rewrite <- !app_assoc. reflexivity.
  - intros [(w1 & w2 & w3 & w4 & w5 & w6 & E1 & E2 & E3 & E4 & E5 & E6 & E7)
            Ht].
    rewrite E1. simpl_state. rewrite E2. simpl_state.
    rewrite E3. simpl_state. rewrite E4. simpl_state.
    rewrite E5. simpl_state. rewrite E6. simpl_state.
    rewrite E7.
    destruct s' as [w' t']. simpl_state. cbn [world trace] in Ht.
    subst t'. rewrite <- !app_assoc. reflexivity.
Qed.

(** Whatever happens in a room, the calls recorded for it are the first
    few of its seven, in order. *)
Lemma room_update_trace (now : Z) (chat : Chat) (s : State World Chat) :
  exists k,
    trace (snd (nightlyUpdateOfChat env now chat s)) =
    trace s ++ firstn k (cycle_calls now chat).
Proof.
  unfold nightlyUpdateOfChat, bind, read, call.
  destruct (running env chat (world s));
    [|exists 0%nat; simpl; now rewrite app_nil_r].
  simpl_state.
  destruct (unscheduleRandomDankTimesOfChat env chat (world s))
    as [[[]|e1] w1]; simpl_state; [|now exists 1%nat].
  destruct (unscheduleAutoLeaderboardsOfChat env chat w1)
    as [[[]|e2] w2]; simpl_state;
    [|exists 2%nat; now rewrite <- !app_assoc].
  destruct (generateRandomDankTimes env chat w2)
    as [[[]|e3] w3]; simpl_state;
    [|exists 3%nat; now rewrite <- !app_assoc].
  destruct (scheduleRandomDankTimesOfChat env chat w3)
    as [[[]|e4] w4]; simpl_state;
    [|exists 4%nat; now rewrite <- !app_assoc].
  destruct (scheduleAutoLeaderboardsOfChat env chat w4)
    as [[[]|e5] w5]; simpl_state;
    [|exists 5%nat; now rewrite <- !app_assoc].
  destruct (hardcoreModeCheck env chat now w5)
    as [[[]|e6] w6]; simpl_state;
    [|exists 6%nat; now rewrite <- !app_assoc].
  exists 7%nat.
  destruct (removeUsersWithZeroScore env chat w6) as [[[]|e7] w7];
    simpl_state; now rewrite <- !app_assoc.
Qed.

(** The iteration over the rooms returns exactly when the rooms found
    running go through their cycles one after the other. *)
Lemma rooms_update_normal (now : Z) (rooms : list Chat)
    (s s' : State World Chat) :
  forEach rooms (nightlyUpdateOfChat env now) s = (Normal tt, s') <->
  exists cycled,
    NightlyCycle env now rooms (world s) (world s') cycled /\
    trace s' = trace s ++ flat_map (cycle_calls now) cycled.
Proof.
  revert s. induction rooms as [|chat rest IH]; intros s.
  - cbn [forEach]. unfold ret. split.
    + intros H. injection H as <-. exists []. split; [constructor|].
      simpl. now rewrite app_nil_r.
    + intros (cycled & Hc & Ht). inversion Hc; subst.
      simpl in Ht. rewrite app_nil_r in Ht.
      f_equal. destruct s, s'. simpl in *. congruence.
  - cbn [forEach]. unfold bind at 1.
    destruct (running env chat (world s)) eqn:Hrun.
    + split.
      * destruct (nightlyUpdateOfChat env now chat s) as [[[]|e] s1] eqn:E;
          [|discriminate].
        intros H. apply IH in H as (cycled & Hc & Ht).
        apply (room_update_running now chat s s1 Hrun) in E as [Hr Ht1].
        exists (chat :: cycled). split.
        -- eapply cycle_running; eassumption.
        -- rewrite Ht, Ht1. simpl. now rewrite <- app_assoc.
      * intros (cycled & Hc & Ht).
        inversion Hc as [| ? ? ? w1 ? cycled' _ Hr Hrest
                         | ? ? ? ? ? Hstop _]; subst; [|congruence].
        set (s1 := mkState w1 (trace s ++ cycle_calls now chat)).
        assert (E : nightlyUpdateOfChat env now chat s = (Normal tt, s1)).
        { apply (room_update_running now chat s s1 Hrun). now split. }
        rewrite E. apply IH. exists cycled'. split; [exact Hrest|].
        rewrite Ht. subst s1. simpl. now rewrite <- app_assoc.
    + rewrite (room_update_stopped now chat s Hrun). rewrite IH. split.
      * intros (cycled & Hc & Ht). exists cycled. split; [|exact Ht].
        now apply cycle_stopped.
      * intros (cycled & Hc & Ht).
        inversion Hc as [| ? ? ? ? ? ? Hr _ _
                         | ? ? ? ? ? _ Hrest]; subst; [congruence|].
        exists cycled. now split.
Qed.

(** Whatever happens during the iteration, every call recorded is one of
    the seven calls of some room, made with the [now] of the fire. *)
Lemma rooms_update_trace (now : Z) (rooms : list Chat)
    (s : State World Chat) :
  exists calls,
    trace (snd (forEach rooms (nightlyUpdateOfChat env now) s)) =
    trace s ++ calls /\
    Forall (fun c => exists chat, In c (cycle_calls now chat)) calls.
Proof.
  revert s. induction rooms as [|chat rest IH]; intros s.
  - exists []. simpl. now rewrite app_nil_r.
  - cbn [forEach]. unfold bind at 1.
    destruct (room_update_trace now chat s) as [k Hk].
    assert (Hpre : Forall (fun c => exists chat, In c (cycle_calls now chat))
                     (firstn k (cycle_calls now chat))).
    { apply Forall_forall. intros c Hc. exists chat.
      rewrite <- (firstn_skipn k (cycle_calls now chat)).
      apply in_or_app. now left. }
    destruct (nightlyUpdateOfChat env now chat s) as [[[]|e] s1];
      simpl_state; cbn [snd] in Hk.
    + destruct (IH s1) as (calls & Hcalls & Hall).
      exists (firstn k (cycle_calls now chat) ++ calls). split.
      * rewrite Hcalls, Hk. now rewrite <- app_assoc.
      * apply Forall_app. now split.
    + exists (firstn k (cycle_calls now chat)). now split.
Qed.

Lemma cycle_call_not_clock (now : Z) (chat : Chat) :
  ~ In MomentUnix (cycle_calls now chat).
Proof.
  simpl. intros H.
  repeat (destruct H as [H|H]; [discriminate|]). exact H.
Qed.

Lemma cycle_call_now (now t : Z) (chat chat' : Chat) :
  In (HardcoreModeCheck chat' t) (cycle_calls now chat) -> t = now.
Proof.
  simpl. intros H.
  repeat (destruct H as [H|H]; [congruence|]). destruct H.
Qed.

(** A room's update throws exactly as its first throwing step does: the
    steps before it returned, the calls recorded are those up to and
    including the throwing one, and the world is the one that step left. *)
Lemma room_update_throws (now : Z) (chat : Chat)
    (s s2 : State World Chat) (e : error) :
  nightlyUpdateOfChat env now chat s = (Throw e, s2) ->
  running env chat (world s) = true /\
  exists k,
    RoomSteps.FirstThrow (RoomSteps.cycle_steps env now chat)
      (world s) k e (world s2) /\
    trace s2 = trace s ++ firstn k (cycle_calls now chat).
Proof.
  unfold nightlyUpdateOfChat, bind, read, call, RoomSteps.cycle_steps.
  destruct (running env chat (world s)); [|discriminate].
  simpl_state. intros H. split; [reflexivity|]. revert H.
  destruct (unscheduleRandomDankTimesOfChat env chat (world s))
    as [[[]|e1] w1] eqn:E1; simpl_state.
  2:{ intros H. injection H as <- <-. exists 1%nat. simpl_state.
      split; [now apply RoomSteps.throws_now | reflexivity]. }
  destruct (unscheduleAutoLeaderboardsOfChat env chat w1)
    as [[[]|e2] w2] eqn:E2; simpl_state.
  2:{ intros H. injection H as <- <-. exists 2%nat. simpl_state. split.
      - eapply RoomSteps.throws_later; [exact E1|].
        now apply RoomSteps.throws_now.
      - now rewrite <- !app_assoc. }
  destruct (generateRandomDankTimes env chat w2)
    as [[[]|e3] w3] eqn:E3; simpl_state.
  2:{ intros H. injection H as <- <-. exists 3%nat. simpl_state. split.
      - eapply RoomSteps.throws_later; [exact E1|].
        eapply RoomSteps.throws_later; [exact E2|].
        now apply RoomSteps.throws_now.
      - now rewrite <- !app_assoc. }
  destruct (scheduleRandomDankTimesOfChat env chat w3)
    as [[[]|e4] w4] eqn:E4; simpl_state.
  2:{ intros H. injection H as <- <-. exists 4%nat. simpl_state. split.
      - eapply RoomSteps.throws_later; [exact E1|].
        eapply RoomSteps.throws_later; [exact E2|].
        eapply RoomSteps.throws_later; [exact E3|].
        now apply RoomSteps.throws_now.
      - now rewrite <- !app_assoc. }
  destruct (scheduleAutoLeaderboardsOfChat env chat w4)
    as [[[]|e5] w5] eqn:E5; simpl_state.
  2:{ intros H. injection H as <- <-. exists 5%nat. simpl_state. split.
      - eapply RoomSteps.throws_later; [exact E1|].
        eapply RoomSteps.throws_later; [exact E2|].
        eapply RoomSteps.throws_later; [exact E3|].
        eapply RoomSteps.throws_later; [exact E4|].
        now apply RoomSteps.throws_now.
      - now rewrite <- !app_assoc. }
  destruct (hardcoreModeCheck env chat now w5)
    as [[[]|e6] w6] eqn:E6; simpl_state.
  2:{ intros H. injection H as <- <-. exists 6%nat. simpl_state. split.
      - eapply RoomSteps.throws_later; [exact E1|].
        eapply RoomSteps.throws_later; [exact E2|].
        eapply RoomSteps.throws_later; [exact E3|].
        eapply RoomSteps.throws_later; [exact E4|].
        eapply RoomSteps.throws_later; [exact E5|].
        now apply RoomSteps.throws_now.
      - now rewrite <- !app_assoc. }
  destruct (removeUsersWithZeroScore env chat w6)
    as [[[]|e7] w7] eqn:E7; simpl_state; [discriminate|].
  intros H. injection H as <- <-. exists 7%nat. simpl_state. split.
  - eapply RoomSteps.throws_later; [exact E1|].
    eapply RoomSteps.throws_later; [exact E2|].
    eapply RoomSteps.throws_later; [exact E3|].
    eapply RoomSteps.throws_later; [exact E4|].
    eapply RoomSteps.throws_later; [exact E5|].
    eapply RoomSteps.throws_later; [exact E6|].
    now apply RoomSteps.throws_now.
  - now rewrite <- !app_assoc.
Qed.

(** The fire, once the log line is written and the clock read. *)
Lemma nightly_update_eq (s : State World Chat) :
  nightlyUpdate env s =
  match moment_unix env (world s) with
  | (Normal now, w1) =>
      forEach (chats env w1) (nightlyUpdateOfChat env now)
        (mkState w1
           (trace s ++ [ConsoleInfo "Doing the nightly update!"%string;
                        MomentUnix]))
  | (Throw e, w1) =>
      (Throw e,
       mkState w1
         (trace s ++ [ConsoleInfo "Doing the nightly update!"%string;
                      MomentUnix]))
  end.
Proof.
  unfold nightlyUpdate, console_info, bind at 1, call at 1.
  cbn [world trace]. unfold bind at 1, call at 1. cbn [world trace].
  destruct (moment_unix env (world s)) as [[now|e] w1];
    rewrite <- app_assoc; reflexivity.
Qed.

(** Whatever happens during the iteration, the calls recorded satisfy
    every property that holds of the empty list and of the first few
    calls of a room and that is kept by appending. *)
Lemma rooms_update_trace_closed (Q : list (Call Chat) -> Prop) (now : Z) :
  Q [] ->
  (forall k chat, Q (firstn k (cycle_calls now chat))) ->
  (forall a b, Q a -> Q b -> Q (a ++ b)) ->
  forall rooms s,
  exists calls,
    trace (snd (forEach rooms (nightlyUpdateOfChat env now) s)) =
    trace s ++ calls /\ Q calls.
Proof.
  intros Qnil Qroom Qapp rooms.
  induction rooms as [|chat rest IH]; intros s.
  - exists []. simpl. now rewrite app_nil_r.
  - cbn [forEach]. unfold bind at 1.
    destruct (room_update_trace now chat s) as [k Hk].
    destruct (nightlyUpdateOfChat env now chat s) as [[[]|e] s1];
      simpl_state; cbn [snd] in Hk.
    + destruct (IH s1) as (calls & Hcalls & Hq).
      exists (firstn k (cycle_calls now chat) ++ calls). split.
      * rewrite Hcalls, Hk. now rewrite <- app_assoc.
      * apply Qapp; [apply Qroom | exact Hq].
    + exists (firstn k (cycle_calls now chat)). split; [exact Hk|].
      apply Qroom.
Qed.

(** Among the first few calls of a room, the removal of the users with
    zero score comes with the hardcore-mode check made just before it. *)
Lemma check_before_removal (now : Z) (k : nat) (chat chat' : Chat) :
  In (RemoveUsersWithZeroScore chat') (firstn k (cycle_calls now chat)) ->
  In (HardcoreModeCheck chat' now) (firstn k (cycle_calls now chat)).
Proof.
  do 7 (destruct k as [|k];
        [simpl; intros H;
         repeat (destruct H as [H|H]; [discriminate|]); destruct H|]).
  rewrite firstn_all2 by (simpl; lia). simpl. intros H.
  repeat (destruct H as [H|H]; [try discriminate|]); [|destruct H].
  injection H as ->. tauto.
Qed.

End ServerFacts.

(* ================================================================== *)
(** * The specification's properties of the nightly update *)
(* ================================================================== *)

Section ServerClaims.
Import JS.
Import Server.

Variables World Chat : Type.
Variable env : Collaborators World Chat.




End ServerClaims.

(* ================================================================== *)
(** * The nightly update on the test rooms *)
(* ================================================================== *)

Section ServerExamples.
Import JS.
Import Server.

(** A fire at second 1000 over a running, a stopped and a running room:
    the two running rooms are cycled in order, both with [now = 1000],
    although fifteen seconds pass during the fire. *)
Example nightly_update_of_three_rooms :
  nightlyUpdate (test_env [room 1; stopped_room 2; room 3]) (mkState 1000 [])
  = (Normal tt,
     mkState 1015
       ([ConsoleInfo "Doing the nightly update!"; MomentUnix]
        ++ cycle_calls 1000 (room 1) ++ cycle_calls 1000 (room 3))).
Proof. reflexivity. Qed.






End ServerExamples.

(* ================================================================== *)
(** * Further properties of [DankTime] *)
(* ================================================================== *)

Section DankTimeMore.
Import JS.
Import DankTime.

Lemma lt_asym (x y : number) : lt x y = true -> lt y x = false.
Proof.
  destruct x as [a | | |], y as [b | | |]; simpl; try congruence.
  rewrite <- (Qcompare_antisym a b).
  destruct (a ?= b)%Q; simpl; congruence.
Qed.

Lemma nodup_snoc (l : list string) (x : string) :
  nodup string_dec (l ++ [x]) =
  remove string_dec x (nodup string_dec l) ++ [x].
Proof.
  induction l as [|a l IH]; simpl.
  - reflexivity.
  - destruct (string_dec x a) as [E|E].
    + subst a.
      destruct (in_dec string_dec x (l ++ [x])) as [_|N];
        [|exfalso; apply N, in_or_app; right; now left].
      rewrite IH. destruct (in_dec string_dec x l); simpl;
        [reflexivity|].
      destruct (string_dec x x); [reflexivity | congruence].
    + destruct (in_dec string_dec a (l ++ [x])) as [I|N],
               (in_dec string_dec a l) as [I'|N']; simpl.
      * exact IH.
      * apply in_app_or in I as [I|[I|[]]]; [contradiction | congruence].
      * exfalso. apply N, in_or_app. now left.
      * destruct (string_dec x a); [congruence|]. simpl. now rewrite IH.
Qed.

(** The fold of the constructor from any stored texts, in terms of the fold
    from none. *)
Lemma fold_add_unique_from (given stored : list string) :
  fold_left add_unique given stored =
  stored ++ filter (fun y => negb (existsb (String.eqb y) stored))
                   (unique_texts given).
Proof.
  unfold unique_texts.
  induction given as [|x given IH] using rev_ind.
  - simpl. now rewrite app_nil_r.
  - rewrite !fold_left_app. cbn [fold_left]. rewrite IH.
    set (U := fold_left add_unique given []).
    set (P := fun y => negb (existsb (String.eqb y) stored)).
    assert (HP : forall y, P y = true <-> ~ In y stored).
    { intros y. unfold P. rewrite negb_true_iff.
      rewrite <- not_true_iff_false, existsb_exists. split.
      - intros H I. apply H. exists y. split; [exact I|apply String.eqb_refl].
      - intros H (z & I & E). apply String.eqb_eq in E. now subst. }
    destruct (add_unique_cases U x) as [[I E]|[I E]]; rewrite E.
    + apply add_unique_present.
      destruct (in_dec string_dec x stored) as [S|S];
        apply in_or_app; [now left|right].
      apply filter_In. split; [exact I | now apply HP].
    + rewrite filter_app. cbn [filter].
      destruct (P x) eqn:Px.
      * rewrite add_unique_absent; [now rewrite <- app_assoc|].
        apply HP in Px. intros C. apply in_app_or in C as [C|C];
          [contradiction|]. apply filter_In in C as [C _]. contradiction.
      * rewrite app_nil_r. apply add_unique_present.
        apply in_or_app. left.
        destruct (in_dec string_dec x stored) as [S|S]; [exact S|].
        apply HP in S. congruence.
Qed.

Lemma filter_not_eqb_remove (x : string) (l : list string) :
  filter (fun y => negb (existsb (String.eqb y) [x])) l =
  remove string_dec x l.
Proof.
  induction l as [|y l IH]; [reflexivity|].
  cbn [filter remove existsb] in *. rewrite IH, orb_false_r.
  destruct (string_dec x y) as [E|E], (String.eqb_spec y x) as [E'|E'];
    try congruence; reflexivity.
Qed.

Lemma unique_texts_cons (x : string) (rest : list string) :
  unique_texts (x :: rest) = x :: remove string_dec x (unique_texts rest).
Proof.
  unfold unique_texts at 1. cbn [fold_left].
  rewrite (add_unique_absent [] x); [|intros []]. cbn [app].
  rewrite fold_add_unique_from. cbn [app]. f_equal.
  apply filter_not_eqb_remove.
Qed.

Lemma remove_rev (x : string) (l : list string) :
  remove string_dec x (rev l) = rev (remove string_dec x l).
Proof.
  induction l as [|a l IH]; [reflexivity|].
  simpl. rewrite remove_app, IH. simpl.
  destruct (string_dec x a); simpl; [now rewrite app_nil_r | reflexivity].
Qed.

Lemma unique_texts_first_occurrences (given : list string) :
  unique_texts given = rev (nodup string_dec (rev given)).
Proof.
  induction given as [|x rest IH]; [reflexivity|].
  rewrite unique_texts_cons, IH. cbn [rev].
  rewrite nodup_snoc, rev_app_distr. cbn [rev app].
  now rewrite remove_rev.
Qed.

(** X1. [compare] is a consistent comparator on any two objects of the
    class, whatever their fields hold: swapping the arguments negates the
    result, and the result is -1, 0 or 1. *)
Theorem compare_swap_negates (a b : t) :
  DankTime.compare a b = - DankTime.compare b a /\
  (DankTime.compare a b = -1 \/ DankTime.compare a b = 0 \/
   DankTime.compare a b = 1).
Proof.
  unfold DankTime.compare, gt.
  destruct (lt (hour a) (hour b)) eqn:H1.
  { rewrite (lt_asym _ _ H1). split; [reflexivity | now left]. }
  destruct (lt (hour b) (hour a)) eqn:H2.
  { split; [reflexivity | now right; right]. }
  destruct (lt (minute a) (minute b)) eqn:M1.
  { rewrite (lt_asym _ _ M1). split; [reflexivity | now left]. }
  destruct (lt (minute b) (minute a)) eqn:M2.
  { split; [reflexivity | now right; right]. }
  split; [reflexivity | now right; left].
Qed.

(** X2. On instances [compare] is transitive, so it can drive a sort: if
    [a] is not after [b] and [b] is not after [c] then [a] is not after
    [c], and strictly before as soon as one of the two steps is strict. *)
Theorem compare_transitive (a b c : t) :
  instance a -> instance b -> instance c ->
  (DankTime.compare a b <= 0 -> DankTime.compare b c <= 0 ->
   DankTime.compare a c <= 0) /\
  (DankTime.compare a b < 0 -> DankTime.compare b c <= 0 ->
   DankTime.compare a c < 0) /\
  (DankTime.compare a b <= 0 -> DankTime.compare b c < 0 ->
   DankTime.compare a c < 0).
Proof.
  intros Va Vb Vc.
  apply instance_valid in Va as ([ha [Ha _]] & [ma [Ma _]] & _).
  apply instance_valid in Vb as ([hb [Hb _]] & [mb [Mb _]] & _).
  apply instance_valid in Vc as ([hc [Hc _]] & [mc [Mc _]] & _).
  rewrite (compare_int a b ha ma hb mb), (compare_int b c hb mb hc mc),
          (compare_int a c ha ma hc mc) by assumption.
  destruct (Z.ltb_spec ha hb), (Z.ltb_spec hb ha), (Z.ltb_spec ma mb),
           (Z.ltb_spec mb ma), (Z.ltb_spec hb hc), (Z.ltb_spec hc hb),
           (Z.ltb_spec mb mc), (Z.ltb_spec mc mb), (Z.ltb_spec ha hc),
           (Z.ltb_spec hc ha), (Z.ltb_spec ma mc), (Z.ltb_spec mc ma);
    lia.
Qed.

Lemma compare_transitive_witness :
  let slot := fun h m => {| hour := of_Z h; minute := of_Z m;
                            texts := ["dank"%string];
                            _points := Some (of_Z 1) |} in
  DankTime.compare (slot 9 5) (slot 10 0) < 0.
Proof.
  intros slot.
  assert (V : forall h m, 0 <= h <= 23 -> 0 <= m <= 59 ->
                          instance (slot h m)).
  { intros h m Hh Hm. exists (slot h m), []. split; [|reflexivity].
    exists (of_Z h), (of_Z m), ["dank"%string], None.
    apply constructor_Normal. repeat split;
      try (apply whole_between_of_Z; lia). discriminate. }
  apply (compare_transitive (slot 9 5) (slot 9 30) (slot 10 0)).
  - apply V; lia.
  - apply V; lia.
  - apply V; lia.
  - vm_compute. congruence.
  - vm_compute. congruence.
Defined.

(** X3. The constructor tests hour, minute, texts and points in this
    order and reports the first test that fails: the message of the
    [RangeError] is the hour message exactly when the hour is invalid, the
    minute message exactly when the hour is valid and the minute is not,
    the texts message exactly when both are valid and no text is given,
    and the points message exactly when only the points are invalid. *)
Theorem constructor_reports_first_invalid_argument
    (h m : number) (given : list string) (p : option number) :
  (constructor h m given p = Throw (RangeError hour_message) <->
   ~ whole_between 0 23 h) /\
  (constructor h m given p = Throw (RangeError minute_message) <->
   whole_between 0 23 h /\ ~ whole_between 0 59 m) /\
  (constructor h m given p = Throw (RangeError texts_message) <->
   whole_between 0 23 h /\ whole_between 0 59 m /\ given = []) /\
  (constructor h m given p = Throw (RangeError points_message) <->
   whole_between 0 23 h /\ whole_between 0 59 m /\ given <> [] /\
   ~ whole_between 1 100 (points_or_default p)).
Proof.
  rewrite constructor_eq. unfold whole_between.
  rewrite <- !out_of_range_false.
  assert (E : given = [] <-> (array_length given <? 1) = true)
    by (symmetry; apply array_length_empty).
  rewrite E. clear E.
  destruct (out_of_range h 0 23), (out_of_range m 0 59),
           (array_length given <? 1),
           (out_of_range (points_or_default p) 1 100);
    repeat split; intros; try discriminate; intuition congruence.
Qed.

(** X4. Removing repeated texts loses no answer of [hasText]: an instance
    built from the texts [given] answers true to a query exactly when one
    of the texts given has the upper-cased form of the query. *)
Theorem hasText_answers_for_the_texts_given
    (toUpperCase : string -> string) (h m : number) (given : list string)
    (p : option number) (this : t) :
  constructor h m given p = Normal this ->
  forall text,
    hasText toUpperCase this text = true <->
    exists text2, In text2 given /\ toUpperCase text2 = toUpperCase text.
Proof.
  intros H text. apply constructor_Normal in H as (_ & _ & _ & _ & ->).
  unfold hasText. rewrite hasText_loop_spec. cbn [texts].
  split; intros (x & Hx & Hu); exists x; (split; [|exact Hu]);
    now apply unique_texts_In.
Qed.

Lemma hasText_answers_for_the_texts_given_witness :
  let this := {| hour := of_Z 13; minute := of_Z 37;
                 texts := ["dank"; "Dank"; "Time"]%string;
                 _points := Some (of_Z 1) |} in
  constructor (of_Z 13) (of_Z 37) ["dank"; "Dank"; "dank"; "Time"]%string
    None = Normal this /\
  hasText toUpperCase_ascii this "TIME"%string = true.
Proof.
  intros this. split; [reflexivity|].
  apply (hasText_answers_for_the_texts_given toUpperCase_ascii
           (of_Z 13) (of_Z 37) ["dank"; "Dank"; "dank"; "Time"]%string
           None this eq_refl).
  exists "Time"%string. split; [|reflexivity].
  right; right; right; now left.
Defined.

(** X5. Decoding then encoding: when [fromJSON] accepts a literal, the
    [toJSON] of the instance has the literal's hour and minute, the points
    of the literal or the default 1 when it has none, and the literal's
    texts when these hold no repetition; so a literal with points and
    without repeated texts comes back unchanged. *)
Theorem fromJSON_then_toJSON (lit : BasicDankTime) (this : t) :
  fromJSON lit = Normal this ->
  lit_hour (toJSON this) = lit_hour lit /\
  lit_minute (toJSON this) = lit_minute lit /\
  lit_points (toJSON this) = Some (points_or_default (lit_points lit)) /\
  (NoDup (lit_texts lit) -> lit_texts (toJSON this) = lit_texts lit) /\
  (NoDup (lit_texts lit) -> lit_points lit <> None -> toJSON this = lit).
Proof.
  intros H. apply constructor_Normal in H as (_ & _ & _ & _ & ->).
  unfold toJSON, get_points. cbn.
  assert (T : NoDup (lit_texts lit) -> unique_texts (lit_texts lit)
                                       = lit_texts lit).
  { intros Hnd. now apply (fold_add_unique_fresh (lit_texts lit) []). }
  repeat split; try exact T.
  intros Hnd Hp. rewrite (T Hnd).
  destruct lit as [lh lm lt [lp|]]; cbn in *; [reflexivity | congruence].
Qed.

Lemma fromJSON_then_toJSON_witness :
  let lit := {| lit_hour := of_Z 4; lit_minute := of_Z 20;
                lit_texts := ["blaze"; "it"]%string;
                lit_points := Some (of_Z 42) |} in
  let this := {| hour := of_Z 4; minute := of_Z 20;
                 texts := ["blaze"; "it"]%string;
                 _points := Some (of_Z 42) |} in
  fromJSON lit = Normal this /\ toJSON this = lit.
Proof.
  intros lit this. split; [reflexivity|].
  apply (fromJSON_then_toJSON lit this eq_refl).
  - repeat constructor; simpl; intros C;
      repeat (destruct C as [C|C]; [discriminate|]); exact C.
  - discriminate.
Defined.

(** X6. The stored texts are the texts given in the order of their first
    occurrence: each later repetition is dropped, nothing is reordered. *)
Theorem constructor_keeps_first_occurrences
    (h m : number) (given : list string) (p : option number) (this : t) :
  constructor h m given p = Normal this ->
  texts this = rev (nodup string_dec (rev given)).
Proof.
  intros H. apply constructor_Normal in H as (_ & _ & _ & _ & ->).
  apply unique_texts_first_occurrences.
Qed.

Lemma constructor_keeps_first_occurrences_witness :
  let this := {| hour := of_Z 0; minute := of_Z 0;
                 texts := ["b"; "a"; "c"]%string;
                 _points := Some (of_Z 1) |} in
  constructor (of_Z 0) (of_Z 0) ["b"; "a"; "b"; "c"; "a"]%string None
  = Normal this /\
  texts this = rev (nodup string_dec (rev ["b"; "a"; "b"; "c"; "a"]%string)).
Proof.
  intros this. split; [reflexivity|].
  apply (constructor_keeps_first_occurrences
           (of_Z 0) (of_Z 0) ["b"; "a"; "b"; "c"; "a"]%string None this
           eq_refl).
Defined.

End DankTimeMore.

(* ================================================================== *)
(** * Further properties of the nightly update *)
(* ================================================================== *)

Section ServerMore.
Import JS.
Import Server.

Variables World Chat : Type.
Variable env : Collaborators World Chat.

(** The calls of a room name that room. *)
Lemma cycle_calls_same_chat (now now' : Z) (chat chat' : Chat)
    (c : Call Chat) :
  In c (cycle_calls now chat) -> In c (cycle_calls now' chat') ->
  chat = chat'.
Proof.
  simpl. intros H H'.
  repeat (destruct H as [H|H];
          [subst c;
           repeat (destruct H' as [H'|H']; [congruence|]); destruct H'|]).
  destruct H.
Qed.

(** Every call recorded during the iteration is a call of a room that was
    found running. *)
Lemma rooms_update_trace_running (now : Z) (rooms : list Chat)
    (s : State World Chat) :
  exists calls,
    trace (snd (forEach rooms (nightlyUpdateOfChat env now) s)) =
    trace s ++ calls /\
    Forall (fun c => exists chat w,
                running env chat w = true /\ In c (cycle_calls now chat))
           calls.
Proof.
  revert s. induction rooms as [|chat rest IH]; intros s.
  - exists []. simpl. now rewrite app_nil_r.
  - cbn [forEach]. unfold bind at 1.
    destruct (running env chat (world s)) eqn:Hrun.
    + destruct (room_update_trace World Chat env now chat s) as [k Hk].
      assert (Hpre : Forall (fun c => exists chat w,
                         running env chat w = true /\
                         In c (cycle_calls now chat))
                       (firstn k (cycle_calls now chat))).
      { apply Forall_forall. intros c Hc. exists chat, (world s).
        split; [exact Hrun|].
        rewrite <- (firstn_skipn k (cycle_calls now chat)).
        apply in_or_app. now left. }
      destruct (nightlyUpdateOfChat env now chat s) as [[[]|e] s1];
        cbn [snd] in *.
      * destruct (IH s1) as (calls & Hcalls & Hall).
        exists (firstn k (cycle_calls now chat) ++ calls). split.
        -- rewrite Hcalls, Hk. now rewrite <- app_assoc.
        -- apply Forall_app. now split.
      * exists (firstn k (cycle_calls now chat)). now split.
    + rewrite (room_update_stopped World Chat env now chat s Hrun).
      apply IH.
Qed.

(** When the steps of every room return and the running flags do not
    depend on the world, the rooms found running are the running rooms. *)
Lemma nightly_cycle_exists (now : Z) (rooms : list Chat) (w : World) :
  (forall chat w1 w2, running env chat w1 = running env chat w2) ->
  (forall chat, In chat rooms ->
     always_returns (unscheduleRandomDankTimesOfChat env chat) /\
     always_returns (unscheduleAutoLeaderboardsOfChat env chat) /\
     always_returns (generateRandomDankTimes env chat) /\
     always_returns (scheduleRandomDankTimesOfChat env chat) /\
     always_returns (scheduleAutoLeaderboardsOfChat env chat) /\
     always_returns (hardcoreModeCheck env chat now) /\
     always_returns (removeUsersWithZeroScore env chat)) ->
  exists w',
    NightlyCycle env now rooms w w'
      (filter (fun chat => running env chat w) rooms).
Proof.
  intros Hstatic. revert w.
  induction rooms as [|chat rest IH]; intros w Hret.
  - exists w. constructor.
  - assert (Hrest : forall c, In c rest -> _) by
      (intros c Hc; apply (Hret c); now right).
    cbn [filter]. destruct (running env chat w) eqn:Hrun.
    + destruct (Hret chat (or_introl eq_refl))
        as (R1 & R2 & R3 & R4 & R5 & R6 & R7).
      destruct (R1 w) as ([] & w1 & E1). destruct (R2 w1) as ([] & w2 & E2).
      destruct (R3 w2) as ([] & w3 & E3). destruct (R4 w3) as ([] & w4 & E4).
      destruct (R5 w4) as ([] & w5 & E5). destruct (R6 w5) as ([] & w6 & E6).
      destruct (R7 w6) as ([] & w7 & E7).
      destruct (IH w7 Hrest) as [w' Hc]. exists w'.
      eapply cycle_running; [exact Hrun | | ].
      * exists w1, w2, w3, w4, w5, w6.
        repeat (split; [eassumption|]). exact E7.
      * erewrite filter_ext; [exact Hc|]. intros c. apply Hstatic.
    + destruct (IH w Hrest) as [w' Hc]. exists w'.
      now apply cycle_stopped.
Qed.

(** X7. A room that is stopped, and stays stopped, is left alone by the
    nightly update: whatever else happens in the fire, none of the seven
    calls is made for it. *)
Theorem nightly_update_leaves_stopped_rooms_alone
    (s : State World Chat) (chat : Chat) :
  (forall w, running env chat w = false) ->
  exists calls,
    trace (snd (nightlyUpdate env s)) = trace s ++ calls /\
    forall now c, In c (cycle_calls now chat) -> ~ In c calls.
Proof.
  intros Hstopped.
  unfold nightlyUpdate, console_info, bind at 1, call at 1.
  cbn [world trace]. unfold bind at 1, call at 1. cbn [world trace].
  destruct (moment_unix env (world s)) as [[now|e] w1].
  - unfold bind at 1, read at 1. cbn [world trace].
    match goal with
    | |- context [forEach ?rooms _ ?s0] =>
        destruct (rooms_update_trace_running now rooms s0)
          as (calls & Ht & Hall)
    end.
    exists ([ConsoleInfo "Doing the nightly update!"%string; MomentUnix]
            ++ calls).
    rewrite Ht. cbn [trace]. rewrite <- !app_assoc.
    split; [reflexivity|]. rewrite Forall_forall in Hall.
    intros now' c Hc Hin. apply in_app_or in Hin as [Hin|Hin].
    + simpl in Hc, Hin.
      destruct Hin as [<-|[<-|[]]];
        repeat (destruct Hc as [Hc|Hc]; [discriminate|]); exact Hc.
    + destruct (Hall _ Hin) as (chat' & w & Hrun & Hc').
      rewrite (cycle_calls_same_chat _ _ _ _ _ Hc Hc') in Hstopped.
      rewrite Hstopped in Hrun. discriminate.
  - exists [ConsoleInfo "Doing the nightly update!"%string; MomentUnix].
    cbn [snd trace]. rewrite <- !app_assoc. split; [reflexivity|].
    intros now' c Hc Hin. simpl in Hc, Hin.
    destruct Hin as [<-|[<-|[]]];
      repeat (destruct Hc as [Hc|Hc]; [discriminate|]); exact Hc.
Qed.

(** X8. When the clock read returns, the steps of every registered room
    return and the running flags do not change during the fire, the fire
    returns, and the calls it made are the log line, the clock read and
    then the seven calls of each running room, room after room in the
    order of the registry. *)
Theorem nightly_update_returns_when_its_steps_return
    (s : State World Chat) (now : Z) (w1 : World) :
  moment_unix env (world s) = (Normal now, w1) ->
  (forall chat w w', running env chat w = running env chat w') ->
  (forall chat, In chat (chats env w1) ->
     always_returns (unscheduleRandomDankTimesOfChat env chat) /\
     always_returns (unscheduleAutoLeaderboardsOfChat env chat) /\
     always_returns (generateRandomDankTimes env chat) /\
     always_returns (scheduleRandomDankTimesOfChat env chat) /\
     always_returns (scheduleAutoLeaderboardsOfChat env chat) /\
     always_returns (hardcoreModeCheck env chat now) /\
     always_returns (removeUsersWithZeroScore env chat)) ->
  exists w',
    nightlyUpdate env s =
    (Normal tt,
     mkState w'
       (trace s
        ++ [ConsoleInfo "Doing the nightly update!"%string; MomentUnix]
        ++ flat_map (cycle_calls now)
             (filter (fun chat => running env chat w1) (chats env w1)))).
Proof.
  intros Hnow Hstatic Hret.
  destruct (nightly_cycle_exists now (chats env w1) w1 Hstatic Hret)
    as [w' Hc].
  exists w'.
  unfold nightlyUpdate, console_info, bind at 1, call at 1.
  cbn [world trace]. unfold bind at 1, call at 1. cbn [world trace].
  rewrite Hnow. unfold bind at 1, read at 1. cbn [world trace].
  apply rooms_update_normal. cbn [world trace].
  eexists. split; [exact Hc|]. now rewrite <- !app_assoc.
Qed.

End ServerMore.

Section ServerMoreExamples.
Import JS.
Import Server.

Lemma nightly_update_leaves_stopped_rooms_alone_witness :
  let env := test_env [room 1; stopped_room 2; room 3] in
  let s := mkState 1000 [] in
  exists calls,
    trace (snd (nightlyUpdate env s)) = trace s ++ calls /\
    forall now c, In c (cycle_calls now (stopped_room 2)) -> ~ In c calls.
Proof.
  intros env s.
  apply (nightly_update_leaves_stopped_rooms_alone Z TestChat env s
           (stopped_room 2)).
  intros w. reflexivity.
Defined.

Lemma nightly_update_returns_when_its_steps_return_witness :
  let env := test_env [room 1; stopped_room 2; room 3] in
  let s := mkState 1000 [] in
  exists w',
    nightlyUpdate env s =
    (Normal tt,
     mkState w'
       (trace s
        ++ [ConsoleInfo "Doing the nightly update!"%string; MomentUnix]
        ++ flat_map (cycle_calls 1000) [room 1; room 3])).
Proof.
  intros env s.
  apply (nightly_update_returns_when_its_steps_return Z TestChat env s
           1000 1001).
  - reflexivity.
  - intros chat w w'. reflexivity.
  - intros chat Hin.
    assert (Hb : broken chat = false).
    { simpl in Hin. destruct Hin as [<-|[<-|[<-|[]]]]; reflexivity. }
    repeat split; intros w; exists tt, (w + 1); try reflexivity.
    simpl. now rewrite Hb.
Defined.

End ServerMoreExamples.

(* ================================================================== *)
(** * Properties of the startup methods *)
(* ================================================================== *)

Section StartupFacts.
Import JS.
Import Startup.

Variables World Chat : Type.
Variable env : Collaborators World Chat.

Local Ltac simpl_state := cbn [world config trace fst snd].

(** The callback of [generateAndScheduleRandomDankTimes]. *)
Lemma generate_and_schedule_rooms (rooms : list Chat)
    (s : State World Chat) :
  (forall chat, In chat rooms ->
     always_returns (Server.generateRandomDankTimes (nightly env) chat) /\
     always_returns (scheduleAllOfChat env chat)) ->
  exists w',
    forEach rooms (fun chat =>
      bind (call (GenerateRandomDankTimes chat)
                 (Server.generateRandomDankTimes (nightly env) chat))
           (fun _ => call (ScheduleAllOfChat chat)
                          (scheduleAllOfChat env chat))) s
    = (Normal tt,
       mkState w' (config s)
         (trace s ++ flat_map (fun chat => [GenerateRandomDankTimes chat;
                                            ScheduleAllOfChat chat]) rooms)).
Proof.
  revert s. induction rooms as [|chat rest IH]; intros s Hret.
  - exists (world s). cbn [forEach flat_map]. unfold ret.
    rewrite app_nil_r. now destruct s.
  - destruct (Hret chat (or_introl eq_refl)) as [G S].
    destruct (G (world s)) as ([] & w1 & E1).
    destruct (S w1) as ([] & w2 & E2).
    cbn [forEach]. unfold bind at 1. unfold bind at 1, call at 1.
    rewrite E1. simpl_state. unfold call at 1. simpl_state. rewrite E2.
    match goal with
    | |- context [forEach rest _ ?s1] =>
        destruct (IH s1) as [w' Hw];
          [intros c Hc; apply Hret; now right|]
    end.
    exists w'. rewrite Hw. simpl_state. cbn [flat_map].
    now rewrite <- !app_assoc.
Qed.

(** The callback of the [forEach] of [sendWhatsNewMessageIfApplicable]:
    whatever happens, the configuration is not touched and only messages
    with the given text are sent. *)
Lemma send_to_rooms (message : string) (rooms : list Chat)
    (s s2 : State World Chat) (r : completion unit) :
  forEach rooms (fun chat =>
    bind (read (chat_id env chat))
         (fun chatId => call (SendMessage chatId message)
                             (sendMessage env chatId message))) s
  = (r, s2) ->
  config s2 = config s /\
  exists ids,
    trace s2 =
    trace s ++ map (fun chatId => SendMessage chatId message) ids /\
    (r = Normal tt ->
     List.length ids = List.length rooms /\
     Forall2 (fun chat chatId => exists w, chatId = chat_id env chat w)
             rooms ids).
Proof.
  revert s. induction rooms as [|chat rest IH]; intros s.
  - cbn [forEach]. unfold ret. intros H. injection H as <- <-.
    split; [reflexivity|].
    exists []. simpl. rewrite app_nil_r. split; [reflexivity|].
    intros _. split; [reflexivity | constructor].
  - cbn [forEach]. unfold bind at 1. unfold bind at 1, read at 1.
    unfold call at 1.
    destruct (sendMessage env (chat_id env chat (world s)) message (world s))
      as [[[]|e] w1]; simpl_state.
    + intros H. apply IH in H as (Hc & ids & Ht & Hn).
      simpl_state. cbn [config trace] in Hc, Ht.
      split; [exact Hc|].
      exists (chat_id env chat (world s) :: ids). split.
      * rewrite Ht, <- app_assoc. reflexivity.
      * intros H. destruct (Hn H) as [Hlen Hall]. split.
        -- simpl. now f_equal.
        -- constructor; [now exists (world s) | exact Hall].
    + intros H. injection H as <- <-. simpl_state.
      split; [reflexivity|].
      exists [chat_id env chat (world s)]. split; [reflexivity|].
      discriminate.
Qed.

(** X9. At startup every registered room, running or stopped, has its
    random dank times generated and then everything of it scheduled, room
    after room in the order of the registry; when these two steps return
    for each room, the method returns having made exactly these calls. *)
Theorem startup_generates_and_schedules_every_room (s : State World Chat) :
  (forall chat, In chat (Server.chats (nightly env) (world s)) ->
     always_returns (Server.generateRandomDankTimes (nightly env) chat) /\
     always_returns (scheduleAllOfChat env chat)) ->
  exists w',
    generateAndScheduleRandomDankTimes env s =
    (Normal tt,
     mkState w' (config s)
       (trace s ++ flat_map (fun chat => [GenerateRandomDankTimes chat;
                                          ScheduleAllOfChat chat])
                            (Server.chats (nightly env) (world s)))).
Proof.
  intros Hret. unfold generateAndScheduleRandomDankTimes.
  unfold bind at 1, read at 1.
  apply generate_and_schedule_rooms. exact Hret.
Qed.

(** When the id of a room does not change, the ids read are those of the
    rooms, in order. *)
Lemma ids_of_rooms (rooms : list Chat) (ids : list Z) (id_of : Chat -> Z) :
  (forall chat w, chat_id env chat w = id_of chat) ->
  Forall2 (fun chat chatId => exists w, chatId = chat_id env chat w)
          rooms ids ->
  ids = map id_of rooms.
Proof.
  intros Hid Hall.
  induction Hall as [|chat chatId rooms' ids' [w ->] _ IH]; [reflexivity|].
  cbn [map]. now rewrite Hid, IH.
Qed.

(** X10. The release message is sent once: when the flag is set and the
    method returns, it has asked for the message once, sent that same
    message to the id of each registered room, once per room and in the
    order of the registry (with ids that do not change, the recipients are
    exactly the ids of the registered rooms in that order), cleared the
    flag and saved the configuration with the flag cleared as its last
    call; running the method again changes nothing and sends nothing. *)
Theorem whats_new_message_is_sent_once (s s' : State World Chat) :
  sendWhatsNewMsg (config s) = true ->
  sendWhatsNewMessageIfApplicable env s = (Normal tt, s') ->
  sendWhatsNewMsg (config s') = false /\
  sendWhatsNewMessageIfApplicable env s' = (Normal tt, s') /\
  exists message w1 ids,
    releaseLogToWhatsNewMessage env (world s) = (Normal message, w1) /\
    List.length ids = List.length (Server.chats (nightly env) w1) /\
    Forall2 (fun chat chatId => exists w, chatId = chat_id env chat w)
            (Server.chats (nightly env) w1) ids /\
    (forall id_of : Chat -> Z,
       (forall chat w, chat_id env chat w = id_of chat) ->
       ids = map id_of (Server.chats (nightly env) w1)) /\
    trace s' =
    trace s ++ ReleaseLogToWhatsNewMessage
            :: map (fun chatId => SendMessage chatId message) ids
            ++ [SaveConfigToFile (config s')].
Proof.
  intros Hflag. unfold sendWhatsNewMessageIfApplicable at 1.
  unfold bind at 1, get_config at 1. rewrite Hflag.
  unfold bind at 1, call at 1.
  destruct (releaseLogToWhatsNewMessage env (world s))
    as [[message|e] w1]; [|discriminate].
  simpl_state. unfold bind at 1, read at 1. simpl_state.
  unfold bind at 1.
  match goal with
  | |- context [forEach ?rooms ?f ?s1] =>
      destruct (forEach rooms f s1) as [[[]|e] s2] eqn:Hsend; [|discriminate]
  end.
  apply send_to_rooms in Hsend as (Hc & ids & Ht & Hn).
  simpl_state. cbn [config trace] in Hc, Ht.
  destruct (Hn eq_refl) as [Hlen Hall].
  unfold bind at 1, set_sendWhatsNewMsg at 1. simpl_state.
  unfold bind at 1, get_config at 1. simpl_state. unfold call.
  simpl_state.
  match goal with
  | |- context [saveConfigToFile env ?cfg ?w] =>
      destruct (saveConfigToFile env cfg w) as [[[]|e] w3]; [|discriminate]
  end.
  intros H. injection H as <-. simpl_state. split; [reflexivity|]. split.
  - unfold sendWhatsNewMessageIfApplicable, bind, get_config.
    reflexivity.
  - exists message, w1, ids. split; [reflexivity|].
    split; [exact Hlen|]. split; [exact Hall|].
    split; [intros id_of Hid; now apply ids_of_rooms|].
    rewrite Ht, <- !app_assoc. reflexivity.
Qed.

(** X11. When the method throws, either the configuration is as it was,
    flag included, so the message is sent again at the next start, or the
    throw came from saving the configuration, which was the last call and
    was given the configuration with the flag cleared.  The configuration
    is never saved with the flag set. *)
Theorem whats_new_failure_keeps_the_flag (s s' : State World Chat)
    (e : error) :
  sendWhatsNewMessageIfApplicable env s = (Throw e, s') ->
  sendWhatsNewMsg (config s) = true /\
  (config s' = config s \/
   (sendWhatsNewMsg (config s') = false /\
    exists calls,
      trace s' = trace s ++ calls ++ [SaveConfigToFile (config s')])).
Proof.
  unfold sendWhatsNewMessageIfApplicable.
  unfold bind at 1, get_config at 1.
  destruct (sendWhatsNewMsg (config s)) eqn:Hflag; [|discriminate].
  unfold bind at 1, call at 1.
  destruct (releaseLogToWhatsNewMessage env (world s))
    as [[message|e0] w1].
  2:{ intros H. injection H as <- <-. split; [reflexivity|]. now left. }
  simpl_state. unfold bind at 1, read at 1. simpl_state.
  unfold bind at 1.
  match goal with
  | |- context [forEach ?rooms ?f ?s1] =>
      destruct (forEach rooms f s1) as [[[]|e1] s2] eqn:Hsend
  end.
  2:{ apply send_to_rooms in Hsend as (Hc & _). cbn [config] in Hc.
      intros H. injection H as <- <-. split; [reflexivity|]. now left. }
  apply send_to_rooms in Hsend as (Hc & ids & Ht & _).
  cbn [config trace] in Hc, Ht.
  unfold bind at 1, set_sendWhatsNewMsg at 1. simpl_state.
  unfold bind at 1, get_config at 1. simpl_state. unfold call.
  simpl_state.
  match goal with
  | |- context [saveConfigToFile env ?cfg ?w] =>
      destruct (saveConfigToFile env cfg w) as [[[]|e3] w3]; [discriminate|]
  end.
  intros H. injection H as <- <-. simpl_state. split; [reflexivity|].
  right. split; [reflexivity|].
  exists (ReleaseLogToWhatsNewMessage
          :: map (fun chatId => SendMessage chatId message) ids).
  rewrite Ht, <- !app_assoc. reflexivity.
Qed.

End StartupFacts.

Section StartupExamples.
Import JS.
Import Startup.

Lemma startup_generates_and_schedules_every_room_witness :
  let env := test_env [Server.room 1; Server.stopped_room 2] in
  let cfg := {| persistenceRate := 5; sendWhatsNewMsg := true |} in
  exists w',
    generateAndScheduleRandomDankTimes env (mkState 0 cfg []) =
    (Normal tt,
     mkState w' cfg
       [GenerateRandomDankTimes (Server.room 1);
        ScheduleAllOfChat (Server.room 1);
        GenerateRandomDankTimes (Server.stopped_room 2);
        ScheduleAllOfChat (Server.stopped_room 2)]).
Proof.
  intros env cfg.
  apply (startup_generates_and_schedules_every_room Z Server.TestChat env
           (mkState 0 cfg [])).
  intros chat Hin.
  assert (Hb : Server.broken chat = false).
  { simpl in Hin. destruct Hin as [<-|[<-|[]]]; reflexivity. }
  split; intros w; exists tt, (w + 1); [|reflexivity].
  simpl. now rewrite Hb.
Defined.

Lemma whats_new_message_is_sent_once_witness :
  let env := test_env [Server.room 1; Server.stopped_room 2] in
  let s := mkState 0 {| persistenceRate := 5; sendWhatsNewMsg := true |} [] in
  let s' := snd (sendWhatsNewMessageIfApplicable env s) in
  sendWhatsNewMsg (config s') = false /\
  sendWhatsNewMessageIfApplicable env s' = (Normal tt, s') /\
  exists message w1 ids,
    releaseLogToWhatsNewMessage env (world s) = (Normal message, w1) /\
    List.length ids =
    List.length (Server.chats (nightly env) w1) /\
    Forall2 (fun chat chatId => exists w, chatId = chat_id env chat w)
            (Server.chats (nightly env) w1) ids /\
    (forall id_of : Server.TestChat -> Z,
       (forall chat w, chat_id env chat w = id_of chat) ->
       ids = map id_of (Server.chats (nightly env) w1)) /\
    trace s' =
    trace s ++ ReleaseLogToWhatsNewMessage
            :: map (fun chatId => SendMessage chatId message) ids
            ++ [SaveConfigToFile (config s')].
Proof.
  intros env s s'.
  apply (whats_new_message_is_sent_once Z Server.TestChat env s s').
  - reflexivity.
  - reflexivity.
Defined.

Lemma whats_new_failure_keeps_the_flag_witness :
  let env := test_env_unreachable_chat
               [Server.room 1; Server.room 2; Server.room 3] in
  let s := mkState 0 {| persistenceRate := 5; sendWhatsNewMsg := true |} [] in
  let s' := snd (sendWhatsNewMessageIfApplicable env s) in
  sendWhatsNewMsg (config s) = true /\
  (config s' = config s \/
   (sendWhatsNewMsg (config s') = false /\
    exists calls,
      trace s' = trace s ++ calls ++ [SaveConfigToFile (config s')])).
Proof.
  intros env s s'.
  apply (whats_new_failure_keeps_the_flag Z Server.TestChat env s s'
           (Error "chat not found")).
  reflexivity.
Defined.

End StartupExamples.

(* ================================================================== *)
(** * Properties of [TelegramClient] *)
(* ================================================================== *)

Section TelegramClientFacts.
Import JS.
Import TelegramClient.

Lemma listener_indexOf_from_found (arr : list Listener) (x : Listener)
    (i : Z) :
  In x arr -> i <= indexOf_from arr x i.
Proof.
  revert i. induction arr as [|y rest IH]; intros i Hin; [destruct Hin|].
  simpl. destruct (Z.eqb_spec y x) as [E|E]; [lia|].
  destruct Hin as [H|H]; [congruence|].
  specialize (IH (i + 1) H). lia.
Qed.

Lemma listener_indexOf_from_missing (arr : list Listener) (x : Listener)
    (i : Z) :
  ~ In x arr -> indexOf_from arr x i = -1.
Proof.
  revert i. induction arr as [|y rest IH]; intros i Hin; [reflexivity|].
  simpl. destruct (Z.eqb_spec y x) as [E|E].
  - exfalso. apply Hin. now left.
  - apply IH. intros H. apply Hin. now right.
Qed.

Lemma subscribe_cases (l : Listener) (this : t) :
  (In l (listeners this) /\ subscribe l this = this) \/
  (~ In l (listeners this) /\
   subscribe l this =
   {| listeners := listeners this ++ [l];
      cachedBotUsername := cachedBotUsername this;
      botUsernamePromise := botUsernamePromise this |}).
Proof.
  unfold subscribe, indexOf.
  destruct (in_dec Z.eq_dec l (listeners this)) as [H|H].
  - left. split; [exact H|].
    apply (listener_indexOf_from_found _ _ 0) in H.
    destruct (Z.eqb_spec (indexOf_from (listeners this) l 0) (-1));
      [lia | reflexivity].
  - right. split; [exact H|].
    now rewrite (listener_indexOf_from_missing _ _ 0 H).
Qed.

Lemma subscribe_all_listeners (subs : list Listener) (this : t) :
  NoDup (listeners this) ->
  let this' := fold_left (fun client l => subscribe l client) subs this in
  NoDup (listeners this') /\
  (forall l, In l (listeners this') <-> In l (listeners this) \/ In l subs) /\
  cachedBotUsername this' = cachedBotUsername this /\
  botUsernamePromise this' = botUsernamePromise this.
Proof.
  revert this. induction subs as [|x rest IH]; intros this Hnd; cbv zeta.
  - simpl. repeat split; tauto.
  - cbn [fold_left].
    destruct (subscribe_cases x this) as [[Hin E]|[Hin E]]; rewrite E.
    + destruct (IH this Hnd) as (H1 & H2 & H3 & H4).
      repeat split; try assumption.
      * intros H. apply H2 in H. simpl. tauto.
      * intros [H|[H|H]]; apply H2; subst; tauto.
    + match goal with
      | |- context [fold_left _ rest ?c] =>
          destruct (IH c) as (H1 & H2 & H3 & H4)
      end.
      { cbn [listeners]. apply NoDup_app; [exact Hnd | | ].
        - repeat constructor. intros [].
        - intros y Hy [Hyx|[]]. subst y. contradiction. }
      cbn [listeners cachedBotUsername botUsernamePromise] in *.
      repeat split; try assumption.
      * intros H. apply H2 in H. rewrite in_app_iff in H. simpl in *. tauto.
      * intros H. apply H2. rewrite in_app_iff. simpl in *. tauto.
Qed.

Lemma admins_loop_In (admins : list Z) (userId : Z) :
  admins_loop admins userId = true <-> In userId admins.
Proof.
  induction admins as [|a rest IH]; simpl.
  - split; [discriminate | intros []].
  - destruct (Z.eqb_spec a userId) as [E|E].
    + split; [now left | reflexivity].
    + rewrite IH. split; [now right | intros [H|H]; [congruence | exact H]].
Qed.

(** The three exemptions of [userIsAllowedToExecuteCommand]. *)
Lemma exempt_spec (msg : Message) (botCommand : BotCommand) :
  negb (adminOnly botCommand)
  || String.eqb (chat_type msg) "private"
  || (from_id msg =? developerUserId) = true <->
  adminOnly botCommand = false \/ chat_type msg = "private"%string \/
  from_id msg = developerUserId.
Proof.
  rewrite !orb_true_iff, negb_true_iff, String.eqb_eq, Z.eqb_eq. tauto.
Qed.

(** Once a name is cached nothing happens any more. *)
Lemma run_cached (events : list Event) (this : t) :
  cachedBotUsername this <> ""%string -> botUsernamePromise this = None ->
  run events this = (this, []).
Proof.
  intros Hc Hp. induction events as [|e rest IH]; [reflexivity|].
  cbn [run].
  assert (E : step e this = (this, [])).
  { destruct e; cbn [step]; unfold getBotUsername; rewrite ?Hp;
      try reflexivity.
    destruct (String.eqb_spec (cachedBotUsername this) ""); [contradiction|].
    reflexivity. }
  rewrite E, IH. reflexivity.
Qed.

(** Once the request is rejected nothing happens any more. *)
Lemma run_rejected (events : list Event) (this : t) :
  cachedBotUsername this = ""%string ->
  botUsernamePromise this = Some Rejected ->
  run events this = (this, []).
Proof.
  intros Hc Hp. induction events as [|e rest IH]; [reflexivity|].
  cbn [run].
  assert (E : step e this = (this, [])).
  { destruct e; cbn [step]; unfold getBotUsername; rewrite ?Hp, ?Hc;
      reflexivity. }
  rewrite E, IH. reflexivity.
Qed.

Lemma run_getMe_bound (events : list Event) (this : t) :
  (List.length (filter is_GetMe (snd (run events this))) <=
   List.length (filter is_fulfilment events)
   + match botUsernamePromise this with None => 1 | Some _ => 0 end)%nat.
Proof.
  revert this. induction events as [|e rest IH]; intros this.
  - simpl. lia.
  - cbn [run]. destruct (step e this) as [this1 calls1] eqn:E.
    specialize (IH this1). destruct (run rest this1) as [this2 calls2].
    cbn [snd] in *. rewrite filter_app, length_app.
    destruct e; cbn [step filter is_fulfilment] in *;
      unfold getBotUsername in *;
      destruct (botUsernamePromise this) as [[|]|] eqn:P;
      try destruct (negb (String.eqb (cachedBotUsername this) ""));
      injection E as <- <-;
      cbn [botUsernamePromise onGetMe] in IH; rewrite ?P in IH;
      simpl in *; lia.
Qed.

(** X12. Subscribing lists each listener once: after any subscriptions to
    a new client its listeners hold no listener twice and are exactly the
    listeners that subscribed; subscribing again a listener that is
    subscribed changes nothing. *)
Theorem subscribe_lists_each_listener_once (subs : list Listener) :
  NoDup (listeners (subscribe_all subs new)) /\
  (forall l, In l (listeners (subscribe_all subs new)) <-> In l subs) /\
  (forall l this, In l (listeners this) -> subscribe l this = this) /\
  (forall l this, subscribe l (subscribe l this) = subscribe l this).
Proof.
  destruct (subscribe_all_listeners subs new (NoDup_nil _))
    as (H1 & H2 & _).
  split; [exact H1|]. split.
  - intros l. rewrite (H2 l). simpl. tauto.
  - assert (Hin : forall l this, In l (listeners this) ->
                                 subscribe l this = this).
    { intros l this Hin.
      destruct (subscribe_cases l this) as [[_ E]|[N _]];
        [exact E | contradiction]. }
    split; [exact Hin|].
    intros l this. apply Hin.
    destruct (subscribe_cases l this) as [[I E]|[N E]]; rewrite E.
    + exact I.
    + cbn [listeners]. apply in_or_app. right. now left.
Qed.

Lemma NoDup_app_disjoint {A} (l1 l2 : list A) (x : A) :
  NoDup (l1 ++ l2) -> In x l1 -> In x l2 -> False.
Proof.
  induction l1 as [|a l1 IH]; intros Hnd H1 H2; [destruct H1|].
  cbn [app] in Hnd. inversion Hnd as [|? ? Ha Hnd']; subst.
  destruct H1 as [->|H1].
  - apply Ha. apply in_or_app. now right.
  - now apply IH.
Qed.

Lemma tell_listeners_all_return
    (onErrorFromApi : Listener -> Z -> error -> completion unit)
    (ls : list Listener) (chatId : Z) (reason : error) :
  (forall l, In l ls -> onErrorFromApi l chatId reason = Normal tt) ->
  tell_listeners onErrorFromApi ls chatId reason =
  (Normal tt, map (fun l => OnErrorFromApi l chatId reason) ls).
Proof.
  induction ls as [|l rest IH]; intros H; [reflexivity|].
  cbn [tell_listeners map]. rewrite (H l (or_introl eq_refl)).
  rewrite IH; [reflexivity|]. intros l' Hl'. apply H. now right.
Qed.

Lemma tell_listeners_throw
    (onErrorFromApi : Listener -> Z -> error -> completion unit)
    (before after : list Listener) (l : Listener) (chatId : Z)
    (reason thrown : error) :
  (forall l', In l' before -> onErrorFromApi l' chatId reason = Normal tt) ->
  onErrorFromApi l chatId reason = Throw thrown ->
  tell_listeners onErrorFromApi (before ++ l :: after) chatId reason =
  (Throw thrown,
   map (fun l' => OnErrorFromApi l' chatId reason) (before ++ [l])).
Proof.
  induction before as [|b rest IH]; intros H Hl.
  - cbn [app tell_listeners map]. now rewrite Hl.
  - cbn [app tell_listeners map]. rewrite (H b (or_introl eq_refl)).
    rewrite IH; [reflexivity | | exact Hl].
    intros l' Hl'. apply H. now right.
Qed.

(** X13. When the bot fails to send a message and the listeners return
    when told, every listener that subscribed, however often, is told
    once, with the chat and the reason of that failure, nobody else is
    told, and the promise of [sendMessage] is fulfilled.  When a listener
    throws on being told, the listeners after it are not told and the
    promise is rejected with what it threw.  When the bot succeeds nobody
    is told. *)
Theorem send_failure_is_reported_once_per_listener
    (onErrorFromApi : Listener -> Z -> error -> completion unit)
    (subs : list Listener) (chatId : Z) (htmlMessage : string)
    (reason : error) :
  let this := subscribe_all subs new in
  ((forall l, In l subs -> onErrorFromApi l chatId reason = Normal tt) ->
   exists reports,
     sendMessage onErrorFromApi (Throw reason) chatId htmlMessage this =
     (Normal tt, BotSendMessage chatId htmlMessage "HTML" :: reports) /\
     NoDup reports /\
     forall c, In c reports <->
               exists l, In l subs /\ c = OnErrorFromApi l chatId reason) /\
  (forall before l after thrown,
     listeners this = before ++ l :: after ->
     (forall l', In l' before ->
                 onErrorFromApi l' chatId reason = Normal tt) ->
     onErrorFromApi l chatId reason = Throw thrown ->
     sendMessage onErrorFromApi (Throw reason) chatId htmlMessage this =
     (Throw thrown,
      BotSendMessage chatId htmlMessage "HTML"
      :: map (fun l' => OnErrorFromApi l' chatId reason) (before ++ [l])) /\
     forall l', In l' after ->
       ~ In (OnErrorFromApi l' chatId reason)
            (snd (sendMessage onErrorFromApi (Throw reason) chatId
                    htmlMessage this))) /\
  sendMessage onErrorFromApi (Normal tt) chatId htmlMessage this =
  (Normal tt, [BotSendMessage chatId htmlMessage "HTML"]).
Proof.
  intros this.
  destruct (subscribe_all_listeners subs new (NoDup_nil _))
    as (H1 & H2 & _). fold (subscribe_all subs new) in H1, H2.
  fold this in H1, H2. cbv zeta in H2.
  split; [|split; [|reflexivity]].
  - intros Hret.
    exists (map (fun l => OnErrorFromApi l chatId reason) (listeners this)).
    split; [|split].
    + unfold sendMessage. rewrite tell_listeners_all_return; [reflexivity|].
      intros l Hl. apply Hret. apply H2 in Hl. simpl in Hl. tauto.
    + clear H2. induction H1 as [|l ls Hl Hnd IH]; [constructor|].
      cbn [map]. constructor; [|exact IH].
      intros C. apply in_map_iff in C as (l' & E & Hl').
      injection E as ->. contradiction.
    + intros c. rewrite in_map_iff. split.
      * intros (l & <- & Hl). exists l. split; [|reflexivity].
        apply H2 in Hl. simpl in Hl. tauto.
      * intros (l & Hl & ->). exists l. split; [reflexivity|].
        apply H2. now right.
  - intros before l after thrown Hls Hbefore Hl.
    assert (E : sendMessage onErrorFromApi (Throw reason) chatId htmlMessage
                  this =
                (Throw thrown,
                 BotSendMessage chatId htmlMessage "HTML"
                 :: map (fun l' => OnErrorFromApi l' chatId reason)
                        (before ++ [l]))).
    { unfold sendMessage. rewrite Hls.
      now rewrite (tell_listeners_throw _ before after l _ _ thrown). }
    split; [exact E|].
    intros l' Hl' C. rewrite E in C. cbn [snd] in C.
    destruct C as [C|C]; [discriminate|].
    apply in_map_iff in C as (x & Ex & Hx). injection Ex as Ex. subst x.
    rewrite Hls in H1.
    apply in_app_or in Hx as [Hx|[Hx|[]]].
    + apply (NoDup_app_disjoint before (l :: after) l' H1 Hx). now right.
    + subst l'. apply NoDup_remove_2 in H1. apply H1.
      apply in_or_app. now right.
Qed.

(** X14. Who may run a command: the action of a command is run exactly
    when the command is not for admins only, or the chat is private, or
    the sender is the developer, or the administrators of the chat were
    retrieved and the sender is one of them.  In the first three cases the
    administrators are not even asked for, and the caller gets what the
    action returns or throws. *)
Theorem command_runs_exactly_when_allowed
    (getChatAdministrators : Z -> completion (list Z))
    (msg : Message) (match_ : list string) (botCommand : BotCommand) :
  (In (CommandAction (name botCommand))
      (snd (executeCommand getChatAdministrators msg match_ botCommand)) <->
   adminOnly botCommand = false \/ chat_type msg = "private"%string \/
   from_id msg = developerUserId \/
   exists admins,
     getChatAdministrators (chat_id msg) = Normal admins /\
     In (from_id msg) admins) /\
  (adminOnly botCommand = false \/ chat_type msg = "private"%string \/
   from_id msg = developerUserId ->
   executeCommand getChatAdministrators msg match_ botCommand =
   (action botCommand msg match_, [CommandAction (name botCommand)])) /\
  (forall admins,
     getChatAdministrators (chat_id msg) = Normal admins ->
     In (from_id msg) admins ->
     fst (executeCommand getChatAdministrators msg match_ botCommand) =
     action botCommand msg match_).
Proof.
  unfold executeCommand, userIsAllowedToExecuteCommand.
  pose proof (exempt_spec msg botCommand) as Hex.
  destruct (negb (adminOnly botCommand)
            || String.eqb (chat_type msg) "private"
            || (from_id msg =? developerUserId)) eqn:Ex.
  - assert (Hyes : adminOnly botCommand = false \/
                   chat_type msg = "private"%string \/
                   from_id msg = developerUserId) by now apply Hex.
    cbn. split; [|split]; [|reflexivity|reflexivity].
    split; [intros _; tauto | intros _; now left].
  - assert (Hno : ~ (adminOnly botCommand = false \/
                     chat_type msg = "private"%string \/
                     from_id msg = developerUserId)).
    { intros C. apply Hex in C. discriminate. }
    destruct (getChatAdministrators (chat_id msg)) as [admins|err].
    + pose proof (admins_loop_In admins (from_id msg)) as Hadm.
      destruct (admins_loop admins (from_id msg)); cbn.
      * split; [|split].
        -- split; [|intros _; right; now left].
           intros _. right; right; right. exists admins.
           split; [reflexivity | now apply Hadm].
        -- tauto.
        -- reflexivity.
      * split; [|split].
        -- split; [intros [C|[]]; discriminate|].
           intros [C|[C|[C|(a & E & I)]]]; try tauto.
           injection E as <-. apply Hadm in I. discriminate.
        -- tauto.
        -- intros a E I. injection E as <-. apply Hadm in I. discriminate.
    + cbn. split; [|split].
      * split; [intros [C|[C|[]]]; discriminate|].
        intros [C|[C|[C|(a & E & _)]]]; try tauto. discriminate.
      * tauto.
      * intros a E. discriminate.
Qed.

(** X15. What the other senders get.  For an admin-only command in a chat
    that is not private, from a sender who is not the developer: when the
    administrators cannot be retrieved the reply is the warning about the
    admin list, the reason is logged and the action is not run; when they
    are retrieved and the sender is not among them the reply is the
    refusal and the action is not run.  So the promise of [executeCommand]
    is rejected only when the action itself throws. *)
Theorem command_is_refused_with_a_reply
    (getChatAdministrators : Z -> completion (list Z))
    (msg : Message) (match_ : list string) (botCommand : BotCommand) :
  (adminOnly botCommand = true -> chat_type msg <> "private"%string ->
   from_id msg <> developerUserId ->
   (forall err,
      getChatAdministrators (chat_id msg) = Throw err ->
      executeCommand getChatAdministrators msg match_ botCommand =
      (Normal failed_admins_reply,
       [GetChatAdministrators (chat_id msg);
        ConsoleError failed_admins_log err])) /\
   (forall admins,
      getChatAdministrators (chat_id msg) = Normal admins ->
      ~ In (from_id msg) admins ->
      executeCommand getChatAdministrators msg match_ botCommand =
      (Normal admins_only_reply, [GetChatAdministrators (chat_id msg)]))) /\
  (forall e,
     fst (executeCommand getChatAdministrators msg match_ botCommand)
     = Throw e ->
     action botCommand msg match_ = Throw e).
Proof.
  unfold executeCommand, userIsAllowedToExecuteCommand.
  pose proof (exempt_spec msg botCommand) as Hex.
  destruct (negb (adminOnly botCommand)
            || String.eqb (chat_type msg) "private"
            || (from_id msg =? developerUserId)) eqn:Ex.
  - cbn. split; [|tauto].
    intros Ha Hp Hd. destruct Hex as [Hex _].
    destruct (Hex eq_refl) as [C|[C|C]]; congruence.
  - destruct (getChatAdministrators (chat_id msg)) as [admins|err].
    + pose proof (admins_loop_In admins (from_id msg)) as Hadm.
      destruct (admins_loop admins (from_id msg)); cbn.
      * split; [|tauto]. intros _ _ _. split; [discriminate|].
        intros a E N. injection E as <-. exfalso. apply N. now apply Hadm.
      * split; [|discriminate]. intros _ _ _. split; [discriminate|].
        reflexivity.
    + cbn. split; [|discriminate]. intros _ _ _. split.
      * intros err' E. now injection E as <-.
      * discriminate.
Qed.

(** X16. The bot's name is asked for once: when the request in flight is
    fulfilled with a name that is not empty, that name is cached, and
    whatever happens afterwards the client makes no call at all, the cache
    keeps the name, and [getBotUsername] answers with it at once. *)
Theorem bot_username_is_cached (this : t) (username : string)
    (events : list Event) :
  botUsernamePromise this = Some Pending ->
  username <> ""%string ->
  run (GetMeFulfilled username :: events) this = (onGetMe username this, [])
  /\
  getBotUsername (onGetMe username this) =
  (Fulfilled username, onGetMe username this, []).
Proof.
  intros Hp Hu. cbn [run step]. rewrite Hp. split.
  - rewrite run_cached; [reflexivity | exact Hu | reflexivity].
  - unfold getBotUsername. cbn [onGetMe cachedBotUsername].
    destruct (String.eqb_spec username ""); [contradiction | reflexivity].
Qed.

(** X17. A failed request is not repeated: when the request in flight is
    rejected, whatever happens afterwards the client never asks the bot
    for its name again, and every later [getBotUsername] is handed the
    rejected promise. *)
Theorem rejected_bot_username_is_never_asked_again (this : t)
    (events : list Event) :
  cachedBotUsername this = ""%string ->
  botUsernamePromise this = Some Pending ->
  let failed := {| listeners := listeners this;
                   cachedBotUsername := ""%string;
                   botUsernamePromise := Some Rejected |} in
  run (GetMeRejected :: events) this = (failed, []) /\
  getBotUsername failed = (Follows Rejected, failed, []).
Proof.
  intros Hc Hp failed. cbn [run step]. rewrite Hp, Hc. split.
  - fold failed. rewrite run_rejected; reflexivity.
  - reflexivity.
Qed.

(** X18. Callers share one request: from a new client, over any course of
    calls and settlements, the bot is asked for its name at most once more
    than requests were fulfilled, so no second request is made while one
    is in flight or after one was rejected. *)
Theorem bot_username_requests_are_shared (events : list Event) :
  (List.length (filter is_GetMe (snd (run events new))) <=
   1 + List.length (filter is_fulfilment events))%nat.
Proof.
  pose proof (run_getMe_bound events new) as H. simpl in H. lia.
Qed.

End TelegramClientFacts.

Section TelegramClientExamples.
Import JS.
Import TelegramClient.

Lemma subscribe_lists_each_listener_once_witness :
  let this := subscribe_all [3; 1; 3; 2; 1] new in
  listeners this = [3; 1; 2] /\ subscribe 1 this = this.
Proof.
  intros this. split; [reflexivity|].
  apply (proj1 (proj2 (proj2
           (subscribe_lists_each_listener_once [3; 1; 3; 2; 1])))).
  simpl. tauto.
Defined.

Lemma send_failure_is_reported_once_per_listener_witness :
  let this := subscribe_all [3; 1; 3; 2; 1] new in
  let reason := Error "ETELEGRAM: chat not found" in
  let quiet := fun (_ : Listener) (_ : Z) (_ : error) => Normal tt in
  let faulty := fun (l : Listener) (_ : Z) (_ : error) =>
                  if l =? 1 then Throw (Error "listener failed")
                  else Normal tt in
  (exists reports,
     sendMessage quiet (Throw reason) 5 "hi" this =
     (Normal tt, BotSendMessage 5 "hi" "HTML" :: reports) /\
     NoDup reports /\
     forall c, In c reports <->
               exists l, In l [3; 1; 3; 2; 1] /\
                         c = OnErrorFromApi l 5 reason) /\
  sendMessage faulty (Throw reason) 5 "hi" this =
  (Throw (Error "listener failed"),
   [BotSendMessage 5 "hi" "HTML"; OnErrorFromApi 3 5 reason;
    OnErrorFromApi 1 5 reason]).
Proof.
  intros this reason quiet faulty. split.
  - apply (proj1 (send_failure_is_reported_once_per_listener
                    quiet [3; 1; 3; 2; 1] 5 "hi" reason)).
    intros l Hl. reflexivity.
  - apply (proj1 (proj2 (send_failure_is_reported_once_per_listener
                           faulty [3; 1; 3; 2; 1] 5 "hi" reason))
             [3] 1 [2] (Error "listener failed")).
    + reflexivity.
    + intros l' [<-|[]]. reflexivity.
    + reflexivity.
Defined.

Lemma command_runs_exactly_when_allowed_witness :
  let admins := fun _ : Z => Normal [7; 8] in
  let msg := {| chat_id := -100; chat_type := "supergroup"; from_id := 8 |} in
  let reset := {| name := "reset"; adminOnly := true;
                  action := fun _ _ => Normal "Leaderboard reset!"%string |} in
  fst (executeCommand admins msg [] reset) = Normal "Leaderboard reset!"%string.
Proof.
  intros admins msg reset.
  apply (proj2 (proj2 (command_runs_exactly_when_allowed admins msg [] reset))
           [7; 8]).
  - reflexivity.
  - simpl. tauto.
Defined.

Lemma command_is_refused_with_a_reply_witness :
  let msg := {| chat_id := -100; chat_type := "supergroup"; from_id := 9 |} in
  let reset := {| name := "reset"; adminOnly := true;
                  action := fun _ _ => Normal "Leaderboard reset!"%string |} in
  executeCommand (fun _ => Normal [7; 8]) msg [] reset =
  (Normal admins_only_reply, [GetChatAdministrators (-100)]) /\
  executeCommand (fun _ => Throw (Error "ETELEGRAM")) msg [] reset =
  (Normal failed_admins_reply,
   [GetChatAdministrators (-100);
    ConsoleError failed_admins_log (Error "ETELEGRAM")]).
Proof.
  intros msg reset.
  assert (Hp : chat_type msg <> "private"%string) by discriminate.
  assert (Hd : from_id msg <> developerUserId) by discriminate.
  split.
  - apply (proj2 (proj1 (command_is_refused_with_a_reply
                           (fun _ => Normal [7; 8]) msg [] reset)
                        eq_refl Hp Hd) [7; 8] eq_refl).
    simpl. intros [C|[C|[]]]; discriminate.
  - apply (proj1 (proj1 (command_is_refused_with_a_reply
                           (fun _ => Throw (Error "ETELEGRAM")) msg [] reset)
                        eq_refl Hp Hd) (Error "ETELEGRAM") eq_refl).
Defined.

Lemma bot_username_is_cached_witness :
  let waiting := snd (fst (getBotUsername new)) in
  run [GetMeFulfilled "DankTimesBot"; CallGetBotUsername; GetMeRejected;
       CallGetBotUsername] waiting
  = (onGetMe "DankTimesBot" waiting, []) /\
  getBotUsername (onGetMe "DankTimesBot" waiting) =
  (Fulfilled "DankTimesBot", onGetMe "DankTimesBot" waiting, []).
Proof.
  intros waiting.
  apply (bot_username_is_cached waiting "DankTimesBot").
  - reflexivity.
  - discriminate.
Defined.

Lemma rejected_bot_username_is_never_asked_again_witness :
  let waiting := snd (fst (getBotUsername new)) in
  let failed := {| listeners := []; cachedBotUsername := "";
                   botUsernamePromise := Some Rejected |} in
  run [GetMeRejected; CallGetBotUsername; CallGetBotUsername] waiting
  = (failed, []) /\
  getBotUsername failed = (Follows Rejected, failed, []).
Proof.
  intros waiting failed.
  apply (rejected_bot_username_is_never_asked_again waiting).
  - reflexivity.
  - reflexivity.
Defined.

End TelegramClientExamples.

(* ================================================================== *)
(** * Properties of the plugin's event subscriptions *)
(* ================================================================== *)

Section PluginFacts.
Import Plugin.

Variable PluginEvent : Type.
Variable event_eqb : PluginEvent -> PluginEvent -> bool.
Hypothesis event_eqb_eq : forall a b, event_eqb a b = true <-> a = b.
Variable PluginEventArguments : Type.

Lemma map_get_set (m : list (PluginEvent * EventFn)) (key key' : PluginEvent)
    (value : EventFn) :
  map_get event_eqb (map_set event_eqb m key value) key' =
  if event_eqb key key' then Some value else map_get event_eqb m key'.
Proof.
  induction m as [|[k v] rest IH]; [reflexivity|].
  cbn [map_set]. destruct (event_eqb k key) eqn:E.
  - apply event_eqb_eq in E. subst k. cbn [map_get].
    destruct (event_eqb key key'); reflexivity.
  - cbn [map_get]. rewrite IH.
    destruct (event_eqb k key') eqn:E'; [|reflexivity].
    destruct (event_eqb key key') eqn:E''; [|reflexivity].
    apply event_eqb_eq in E', E''. subst.
    assert (R : event_eqb key' key' = true) by now apply event_eqb_eq.
    congruence.
Qed.

Lemma find_snoc {A} (f : A -> bool) (l : list A) (x : A) :
  find f (l ++ [x]) =
  match find f l with
  | Some y => Some y
  | None => if f x then Some x else None
  end.
Proof.
  induction l as [|a l IH]; [reflexivity|].
  simpl. destruct (f a); [reflexivity | exact IH].
Qed.

Lemma map_get_subscribe_all (subs : list (PluginEvent * EventFn))
    (this : t PluginEvent) (event : PluginEvent) :
  map_get event_eqb
    (pluginEventTriggers (subscribe_all event_eqb subs this)) event =
  match find (fun sub => event_eqb (fst sub) event) (rev subs) with
  | Some sub => Some (snd sub)
  | None => map_get event_eqb (pluginEventTriggers this) event
  end.
Proof.
  revert this. induction subs as [|x rest IH]; intros this; [reflexivity|].
  unfold subscribe_all in *. cbn [fold_left rev].
  rewrite IH, find_snoc.
  destruct (find _ (rev rest)); [reflexivity|].
  unfold subscribeToPluginEvent. cbn [pluginEventTriggers].
  rewrite map_get_set. destruct (event_eqb (fst x) event); reflexivity.
Qed.

(** X19. One event function per event: after any subscriptions made by a
    new plugin, triggering an event applies exactly the function of the
    last subscription to that event, once, and applies nothing when there
    was no subscription to it. *)
Theorem trigger_applies_the_last_subscription
    (name0 version0 : string) (subs : list (PluginEvent * EventFn))
    (event : PluginEvent) (eventArgs : PluginEventArguments) :
  triggerEvent event_eqb event eventArgs
    (subscribe_all event_eqb subs (constructor name0 version0)) =
  match find (fun sub => event_eqb (fst sub) event) (rev subs) with
  | Some sub => [Invoke (snd sub) eventArgs]
  | None => []
  end.
Proof.
  unfold triggerEvent. rewrite map_get_subscribe_all.
  destruct (find _ (rev subs)); reflexivity.
Qed.

End PluginFacts.

Section PluginExamples.
Import Plugin.

Lemma trigger_applies_the_last_subscription_witness :
  let plugin :=
    subscribe_all String.eqb
      [("ChatMessage", 1); ("NightlyUpdate", 2); ("ChatMessage", 3)]%string
      (constructor "Example Plugin" "1.0.0") in
  triggerEvent String.eqb "ChatMessage"%string tt plugin = [Invoke 3 tt] /\
  triggerEvent String.eqb "HourlyTick"%string tt plugin = [].
Proof.
  intros plugin. split.
  - apply (trigger_applies_the_last_subscription string String.eqb
             String.eqb_eq unit).
  - apply (trigger_applies_the_last_subscription string String.eqb
             String.eqb_eq unit).
Defined.

End PluginExamples.

Section DankTimeMoreExamples.
Import JS.
Import DankTime.

(** With every argument invalid the hour is the one reported; with a valid
    hour, the minute. *)
Lemma constructor_reports_first_invalid_argument_witness :
  constructor (of_Z 24) (of_Z (-1)) [] (Some (of_Z 0))
  = Throw (RangeError hour_message) /\
  constructor (of_Z 23) (of_Z 60) [] (Some (of_Z 0))
  = Throw (RangeError minute_message).
Proof.
  split.
  - apply (proj1 (constructor_reports_first_invalid_argument
                    (of_Z 24) (of_Z (-1)) [] (Some (of_Z 0)))).
    intros H. apply whole_between_of_Z in H. lia.
  - apply (proj1 (proj2 (constructor_reports_first_invalid_argument
                           (of_Z 23) (of_Z 60) [] (Some (of_Z 0))))).
    split.
    + apply whole_between_of_Z. lia.
    + intros H. apply whole_between_of_Z in H. lia.
Defined.

End DankTimeMoreExamples.

(* ================================================================== *)
(** * Facts about objects and arrays by reference *)
(* ================================================================== *)

Section HeapFacts.
Import JS.
Import Heap.

Lemma replace_length {A} (i : nat) (v : A) (l : list A) :
  List.length (replace i v l) = List.length l.
Proof.
  revert i. induction l as [|x l IH]; intros [|i]; simpl; congruence.
Qed.

Lemma nth_replace_eq {A} (i : nat) (v d : A) (l : list A) :
  (i < List.length l)%nat -> nth i (replace i v l) d = v.
Proof.
  revert i. induction l as [|x l IH]; intros [|i] H; simpl in *;
    try lia; [reflexivity|]. apply IH. lia.
Qed.

Lemma nth_replace_neq {A} (i j : nat) (v d : A) (l : list A) :
  i <> j -> nth j (replace i v l) d = nth j l d.
Proof.
  revert i j. induction l as [|x l IH]; intros [|i] [|j] H; simpl;
    try reflexivity; try congruence. apply IH. congruence.
Qed.

Lemma replace_replace {A} (i : nat) (v w : A) (l : list A) :
  replace i w (replace i v l) = replace i w l.
Proof.
  revert i. induction l as [|x l IH]; intros [|i]; simpl; congruence.
Qed.

Lemma replace_nth_self {A} (i : nat) (d : A) (l : list A) :
  replace i (nth i l d) l = l.
Proof.
  revert i. induction l as [|x l IH]; intros [|i]; simpl; congruence.
Qed.

Lemma replace_last {A} (v x : A) (l : list A) :
  replace (List.length l) v (l ++ [x]) = l ++ [v].
Proof. induction l as [|y l IH]; simpl; congruence. Qed.

Lemma nth_last {A} (x d : A) (l : list A) :
  nth (List.length l) (l ++ [x]) d = x.
Proof. induction l as [|y l IH]; simpl; congruence. Qed.

(** The [forEach] of the constructor, on the array of [this]. *)
Lemma push_loop (this a : ref) (given : list string) (s : t) :
  texts (object_at s this) = a ->
  (a < List.length (arrays s))%nat ->
  forEach given (fun text =>
    bind (get_texts this) (fun arr =>
    bind (array_contents arr) (fun stored =>
    if indexOf stored text =? -1 then array_push arr text else ret tt))) s
  = (Normal tt,
     {| objects := objects s;
        arrays := replace a (fold_left DankTime.add_unique given
                               (array_at s a))
                          (arrays s) |}).
Proof.
  revert s. induction given as [|x rest IH]; intros s Ha Hlt.
  - cbn [forEach fold_left]. unfold ret, array_at.
    rewrite replace_nth_self. now destruct s.
  - cbn [forEach fold_left]. unfold bind at 1. unfold bind at 1.
    unfold get_texts at 1. rewrite Ha. unfold bind at 1.
    unfold array_contents at 1. unfold DankTime.add_unique at 2.
    destruct (indexOf (array_at s a) x =? -1).
    + unfold array_push at 1. rewrite IH.
      * cbn [objects arrays]. unfold array_at at 1. cbn [arrays].
        rewrite nth_replace_eq by exact Hlt.
        now rewrite replace_replace.
      * exact Ha.
      * cbn [arrays]. now rewrite replace_length.
    + unfold ret at 1. now apply IH.
Qed.

(** The constructor, by cases on its guards: whatever the outcome, one
    object and one array are added at the end of the store. *)
Lemma heap_constructor_eq (h m : number) (given : list string)
    (p : option number) (s : t) :
  constructor h m given p s =
  let fresh := fun pts txts =>
    {| objects := objects s ++ [{| hour := h; minute := m;
                                   texts := List.length (arrays s);
                                   _points := pts |}];
       arrays := arrays s ++ [txts] |} in
  if out_of_range h 0 23
  then (Throw (RangeError DankTime.hour_message), fresh None [])
  else if out_of_range m 0 59
  then (Throw (RangeError DankTime.minute_message), fresh None [])
  else if array_length given <? 1
  then (Throw (RangeError DankTime.texts_message), fresh None [])
  else if out_of_range (DankTime.points_or_default p) 1 100
  then (Throw (RangeError DankTime.points_message),
        fresh None (DankTime.unique_texts given))
  else (Normal (List.length (objects s)),
        fresh (Some (DankTime.points_or_default p))
              (DankTime.unique_texts given)).
Proof.
  cbv zeta. unfold constructor.
  unfold bind at 1, allocate at 1.
  set (this := List.length (objects s)).
  set (a := List.length (arrays s)).
  set (obj := {| hour := h; minute := m; texts := a; _points := None |}).
  set (s0 := {| objects := objects s ++ [obj]; arrays := arrays s ++ [[]] |}).
  assert (Hobj : object_at s0 this = obj)
    by (unfold object_at, s0, this; cbn [objects]; apply nth_last).
  unfold bind at 1, get_hour at 1. cbn beta iota. rewrite !Hobj.
  cbn [hour obj].
  unfold bind at 1, throw_if at 1. fold (out_of_range h 0 23).
  destruct (out_of_range h 0 23); [reflexivity|].
  unfold ret at 1. cbn beta iota.
  unfold bind at 1, get_minute at 1. cbn beta iota. rewrite !Hobj.
  cbn [minute obj].
  unfold bind at 1, throw_if at 1. fold (out_of_range m 0 59).
  destruct (out_of_range m 0 59); [reflexivity|].
  unfold ret at 1. cbn beta iota.
  unfold bind at 1, throw_if at 1.
  destruct (array_length given <? 1); [reflexivity|].
  unfold ret at 1. cbn beta iota. unfold bind at 1.
  rewrite (push_loop this a given s0).
  2:{ now rewrite Hobj. }
  2:{ unfold s0, a. cbn [arrays]. rewrite length_app. simpl. lia. }
  assert (Harr : array_at s0 a = [])
    by (unfold array_at, s0, a; cbn [arrays]; apply nth_last).
  rewrite Harr. fold (DankTime.unique_texts given).
  unfold s0 at 2. cbn [arrays]. unfold a at 1. rewrite replace_last.
  unfold bind at 1, set_points at 1, bind at 1, throw_if at 1.
  fold (out_of_range (DankTime.points_or_default p) 1 100).
  destruct (out_of_range (DankTime.points_or_default p) 1 100);
    [reflexivity|].
  unfold ret at 1, put__points at 1. cbn beta iota zeta.
  unfold object_at. cbn [objects arrays].
  fold (object_at s0 this). rewrite Hobj. cbn [hour minute texts obj].
  unfold ret, s0, this. cbn [objects]. now rewrite replace_last.
Qed.

(** Whatever its outcome, a construction adds one object and one array
    at the end of the store and touches nothing else. *)
Lemma constructor_extends (h m : number) (given : list string)
    (p : option number) (s : t) :
  exists pts txts,
    snd (constructor h m given p s) =
    {| objects := objects s ++ [{| hour := h; minute := m;
                                   texts := List.length (arrays s);
                                   _points := pts |}];
       arrays := arrays s ++ [txts] |}.
Proof.
  rewrite heap_constructor_eq. cbv zeta.
  destruct (out_of_range h 0 23); [now eexists; eexists|].
  destruct (out_of_range m 0 59); [now eexists; eexists|].
  destruct (array_length given <? 1); [now eexists; eexists|].
  destruct (out_of_range (DankTime.points_or_default p) 1 100);
    now eexists; eexists.
Qed.

Lemma extension_frame (s : t) (x : object) (y : list string) :
  texts x = List.length (arrays s) ->
  let s' := {| objects := objects s ++ [x]; arrays := arrays s ++ [y] |} in
  (forall o, (o < List.length (objects s))%nat ->
             object_at s' o = object_at s o) /\
  (forall a, (a < List.length (arrays s))%nat ->
             array_at s' a = array_at s a) /\
  (wf s -> wf s') /\
  List.length (objects s') = S (List.length (objects s)).
Proof.
  intros Hx s'. unfold object_at, array_at, s'. cbn [objects arrays].
  split; [|split; [|split]].
  - intros o Ho. now apply app_nth1.
  - intros a Ha. now apply app_nth1.
  - intros Hwf o Ho. unfold object_at. cbn [objects arrays] in *.
    rewrite length_app in *. cbn [List.length] in *.
    destruct (Nat.eq_dec o (List.length (objects s))) as [->|Hne].
    + rewrite nth_last, Hx. lia.
    + rewrite app_nth1 by lia.
      assert (Ho' : (o < List.length (objects s))%nat) by lia.
      specialize (Hwf o Ho'). unfold object_at in Hwf. lia.
  - rewrite length_app. simpl. lia.
Qed.

(** The constructor by reference does what the constructor on values
    does. *)
Lemma constructor_refines (h m : number) (given : list string)
    (p : option number) (s : t) :
  fst (constructor h m given p s) =
  match DankTime.constructor h m given p with
  | Normal _ => Normal (List.length (objects s))
  | Throw e => Throw e
  end /\
  forall d, DankTime.constructor h m given p = Normal d ->
            view (snd (constructor h m given p s))
                 (List.length (objects s)) = d.
Proof.
  rewrite heap_constructor_eq, constructor_eq. cbv zeta.
  destruct (out_of_range h 0 23); [split; [reflexivity|discriminate]|].
  destruct (out_of_range m 0 59); [split; [reflexivity|discriminate]|].
  destruct (array_length given <? 1); [split; [reflexivity|discriminate]|].
  destruct (out_of_range (DankTime.points_or_default p) 1 100);
    [split; [reflexivity|discriminate]|].
  split; [reflexivity|]. intros d H. injection H as <-.
  unfold view, object_at, array_at. cbn [fst snd objects arrays].
  rewrite nth_last. cbn [hour minute texts _points].
  now rewrite nth_last.
Qed.

(** What one operation can change of an existing object. *)
Lemma run_frame (toUpperCase : string -> string) (op : operation) (s : t)
    (this : ref) :
  wf s -> (this < List.length (objects s))%nat ->
  let s' := run toUpperCase op s in
  hour (object_at s' this) = hour (object_at s this) /\
  minute (object_at s' this) = minute (object_at s this) /\
  texts (object_at s' this) = texts (object_at s this) /\
  (_points (object_at s' this) = _points (object_at s this) \/
   exists p, op = SetPoints this p /\ whole_between 1 100 p /\
             _points (object_at s' this) = Some p) /\
  (array_at s' (texts (object_at s this)) =
   array_at s (texts (object_at s this)) \/
   exists text, op = Push (texts (object_at s this)) text /\
                array_at s' (texts (object_at s this)) =
                array_at s (texts (object_at s this)) ++ [text]) /\
  wf s' /\ (List.length (objects s) <= List.length (objects s'))%nat.
Proof.
  intros Hwf Hthis s'.
  assert (Es : s' = run toUpperCase op s) by reflexivity. clearbody s'.
  assert (Hsame : s' = s ->
            hour (object_at s' this) = hour (object_at s this) /\
            minute (object_at s' this) = minute (object_at s this) /\
            texts (object_at s' this) = texts (object_at s this) /\
            (_points (object_at s' this) = _points (object_at s this) \/
             exists p, op = SetPoints this p /\ whole_between 1 100 p /\
                       _points (object_at s' this) = Some p) /\
            (array_at s' (texts (object_at s this)) =
             array_at s (texts (object_at s this)) \/
             exists text, op = Push (texts (object_at s this)) text /\
                          array_at s' (texts (object_at s this)) =
                          array_at s (texts (object_at s this)) ++ [text]) /\
            wf s' /\ (List.length (objects s) <= List.length (objects s'))%nat).
  { intros E. rewrite E. repeat split; auto. }
  assert (Hext : forall x y,
            texts x = List.length (arrays s) ->
            s' = {| objects := objects s ++ [x]; arrays := arrays s ++ [y] |} ->
            hour (object_at s' this) = hour (object_at s this) /\
            minute (object_at s' this) = minute (object_at s this) /\
            texts (object_at s' this) = texts (object_at s this) /\
            (_points (object_at s' this) = _points (object_at s this) \/
             exists p, op = SetPoints this p /\ whole_between 1 100 p /\
                       _points (object_at s' this) = Some p) /\
            (array_at s' (texts (object_at s this)) =
             array_at s (texts (object_at s this)) \/
             exists text, op = Push (texts (object_at s this)) text /\
                          array_at s' (texts (object_at s this)) =
                          array_at s (texts (object_at s this)) ++ [text]) /\
            wf s' /\ (List.length (objects s) <= List.length (objects s'))%nat).
  { intros x y Hx E. rewrite E.
    destruct (extension_frame s x y Hx) as (Ho & Ha & Hw & Hl).
    cbv zeta in *. rewrite (Ho this Hthis), (Ha _ (Hwf this Hthis)).
    repeat split; auto. lia. }
  destruct op as [h m given p | o p | o | o text | o | lit | a b | a text];
    unfold run in Es.
  - destruct (constructor_extends h m given p s) as (pts & txts & E).
    rewrite E in Es. refine (Hext _ _ _ Es). reflexivity.
  - unfold set_points, bind, throw_if in Es.
    fold (out_of_range p 1 100) in Es.
    destruct (out_of_range p 1 100) eqn:Hp; [now apply Hsame|].
    apply out_of_range_false in Hp.
    unfold ret, put__points in Es. cbn [snd] in Es.
    assert (Hlen : List.length (objects s') = List.length (objects s))
      by (rewrite Es; cbn [objects]; apply replace_length).
    assert (Harr : arrays s' = arrays s) by (now rewrite Es).
    assert (Hobj : forall o',
              hour (object_at s' o') = hour (object_at s o') /\
              minute (object_at s' o') = minute (object_at s o') /\
              texts (object_at s' o') = texts (object_at s o') /\
              (o' <> o ->
               _points (object_at s' o') = _points (object_at s o')) /\
              ((o' < List.length (objects s))%nat -> o' = o ->
               _points (object_at s' o') = Some p)).
    { intros o'. rewrite Es. unfold object_at. cbn [objects].
      destruct (Nat.eq_dec o o') as [<-|Hne].
      - destruct (Nat.lt_ge_cases o (List.length (objects s))) as [Hlt|Hge].
        + rewrite !nth_replace_eq by exact Hlt. cbn.
          repeat split; congruence.
        + assert (R : forall v, replace o v (objects s) = objects s).
          { intros v. clear - Hge. revert o Hge.
            induction (objects s) as [|x l IH]; intros [|o] H;
              simpl in *; try reflexivity; try lia.
            f_equal. apply IH. lia. }
          rewrite !R. repeat split; try congruence. lia.
      - rewrite !nth_replace_neq by exact Hne.
        repeat split; congruence. }
    destruct (Hobj this) as (H1 & H2 & H3 & H4 & H5).
    split; [exact H1|]. split; [exact H2|]. split; [exact H3|].
    split; [|split; [|split]].
    + destruct (Nat.eq_dec this o) as [->|Hne].
      * right. exists p. repeat split; auto.
      * left. now apply H4.
    + left. unfold array_at. now rewrite Harr.
    + intros o' Ho'. rewrite Hlen in Ho'.
      destruct (Hobj o') as (_ & _ & T & _). rewrite T, Harr.
      apply (Hwf o' Ho').
    + lia.
  - now apply Hsame.
  - now apply Hsame.
  - now apply Hsame.
  - unfold fromJSON, bind, array_contents in Es.
    destruct (constructor_extends (lit_hour lit) (lit_minute lit)
                (array_at s (lit_texts lit)) (lit_points lit) s)
      as (pts & txts & E).
    rewrite E in Es. refine (Hext _ _ _ Es). reflexivity.
  - now apply Hsame.
  - unfold array_push in Es. cbn [snd] in Es.
    assert (Hobj : forall o', object_at s' o' = object_at s o')
      by (intros o'; now rewrite Es).
    rewrite !Hobj. repeat (split; [reflexivity|]).
    split; [now left|]. split; [|split].
    + rewrite Es. unfold array_at. cbn [arrays].
      destruct (Nat.eq_dec a (texts (object_at s this))) as [Heq|Hne].
      * right. exists text. subst a. split; [reflexivity|].
        rewrite nth_replace_eq by (apply Hwf; exact Hthis). reflexivity.
      * left. now rewrite nth_replace_neq.
    + intros o' Ho'. rewrite Hobj. rewrite Es in *.
      cbn [arrays objects] in *.
      rewrite replace_length. now apply Hwf.
    + rewrite Es. cbn [objects]. lia.
Qed.

(** What a sequence of operations cannot change of an existing object. *)
Lemma run_all_frame (toUpperCase : string -> string)
    (ops : list operation) (s : t) (this : ref) :
  wf s -> (this < List.length (objects s))%nat ->
  let s' := run_all toUpperCase ops s in
  hour (object_at s' this) = hour (object_at s this) /\
  minute (object_at s' this) = minute (object_at s this) /\
  texts (object_at s' this) = texts (object_at s this) /\
  wf s' /\ (this < List.length (objects s'))%nat.
Proof.
  revert s. induction ops as [|op rest IH]; intros s Hwf Hthis; cbv zeta.
  - simpl. repeat split; auto.
  - change (run_all toUpperCase (op :: rest) s)
      with (run_all toUpperCase rest (run toUpperCase op s)).
    destruct (run_frame toUpperCase op s this Hwf Hthis)
      as (H1 & H2 & H3 & _ & _ & Hwf' & Hlen).
    cbv zeta in *.
    destruct (IH (run toUpperCase op s) Hwf' ltac:(lia))
      as (I1 & I2 & I3 & I4 & I5).
    cbv zeta in *.
    split; [congruence|]. split; [congruence|]. split; [congruence|].
    split; [exact I4 | exact I5].
Qed.

Lemma view_extension (s : t) (x : object) (y : list string) (o : ref) :
  wf s -> texts x = List.length (arrays s) ->
  (o < List.length (objects s))%nat ->
  view {| objects := objects s ++ [x]; arrays := arrays s ++ [y] |} o =
  view s o.
Proof.
  intros Hwf Hx Ho.
  destruct (extension_frame s x y Hx) as (Hobj & Harr & _ & _).
  cbv zeta in *. unfold view. rewrite (Hobj o Ho).
  now rewrite (Harr _ (Hwf o Ho)).
Qed.

(** Generating slots constructs new objects and leaves the existing ones
    as they are. *)
Lemma generate_frame (draws : list Draw) (s s' : t)
    (r : completion (list ref)) :
  wf s ->
  generateRandomTimeSlots draws s = (r, s') ->
  wf s' /\ (List.length (objects s) <= List.length (objects s'))%nat /\
  (forall o, (o < List.length (objects s))%nat -> view s' o = view s o) /\
  (forall slots, r = Normal slots ->
     Forall2 (fun (draw : Draw) slot =>
                (List.length (objects s) <= slot < List.length (objects s'))%nat
                /\
                let '(h, m, texts0, p) := draw in
                DankTime.constructor h m texts0 (Some p)
                = Normal (view s' slot))
             draws slots).
Proof.
  revert s r s'. induction draws as [|[[[h m] texts0] p] rest IH];
    intros s r s' Hwf.
  - cbn [generateRandomTimeSlots]. unfold ret. intros H.
    injection H as <- <-. repeat split; auto.
    intros slots H. injection H as <-. constructor.
  - cbn [generateRandomTimeSlots]. unfold bind at 1.
    destruct (constructor_extends h m texts0 (Some p) s)
      as (pts & txts & Eext).
    destruct (constructor_refines h m texts0 (Some p) s) as [Efst Eview].
    destruct (constructor h m texts0 (Some p) s) as [[slot|e] s1] eqn:E1;
      cbn [fst snd] in *.
    + set (x := {| hour := h; minute := m;
                   texts := List.length (arrays s); _points := pts |}) in *.
      destruct (extension_frame s x txts eq_refl) as (_ & _ & Hwf1 & Hlen1).
      cbv zeta in *. rewrite <- Eext in Hwf1, Hlen1.
      specialize (Hwf1 Hwf).
      assert (Hold : forall o, (o < List.length (objects s))%nat ->
                               view s1 o = view s o).
      { intros o Ho. rewrite Eext. now apply view_extension. }
      destruct (DankTime.constructor h m texts0 (Some p)) as [d|e0] eqn:Ed;
        [|discriminate].
      injection Efst as ->. specialize (Eview d eq_refl).
      unfold bind at 1.
      destruct (generateRandomTimeSlots rest s1) as [[slots|e] s2] eqn:E2.
      * destruct (IH s1 _ s2 Hwf1 E2) as (Hwf2 & Hlen2 & Hframe & Hall).
        unfold ret. intros H. injection H as <- <-.
        split; [exact Hwf2|]. split; [lia|]. split.
        -- intros o Ho. rewrite Hframe by lia. now apply Hold.
        -- intros slots' H. injection H as <-. constructor.
           ++ split; [lia|]. rewrite Hframe by lia. now rewrite Eview.
           ++ eapply Forall2_impl; [|exact (Hall slots eq_refl)].
              intros [[[h' m'] t'] p'] slot' [Hb Hc]. split; [lia|exact Hc].
      * destruct (IH s1 _ s2 Hwf1 E2) as (Hwf2 & Hlen2 & Hframe & _).
        intros H. injection H as <- <-.
        split; [exact Hwf2|]. split; [lia|]. split; [|discriminate].
        intros o Ho. rewrite Hframe by lia. now apply Hold.
    + intros H. injection H as <- <-.
      set (x := {| hour := h; minute := m;
                   texts := List.length (arrays s); _points := pts |}) in *.
      destruct (extension_frame s x txts eq_refl) as (_ & _ & Hwf1 & Hlen1).
      cbv zeta in *. rewrite <- Eext in Hwf1, Hlen1.
      split; [now apply Hwf1|]. split; [lia|]. split; [|discriminate].
      intros o Ho. rewrite Eext. now apply view_extension.
Qed.

End HeapFacts.

(* ================================================================== *)
(** * What can change of a TimeSlot after its construction *)
(* ================================================================== *)

Section HeapClaims.
Import JS.
Import Heap.

(** C5, as the specification states it, fails: of a slot constructed with
    1 point and the text "dank", the points are changed by the public
    setter, and the texts are changed by a write to the array that
    [toJSON] hands out, which is the array of the slot itself. *)
Lemma points_and_texts_of_a_constructed_slot_change :
  let s := snd (constructor (of_Z 9) (of_Z 5) ["dank"%string]
                  (Some (of_Z 1)) empty) in
  view s 0%nat =
  {| DankTime.hour := of_Z 9; DankTime.minute := of_Z 5;
     DankTime.texts := ["dank"%string];
     DankTime._points := Some (of_Z 1) |} /\
  DankTime._points (view (run toUpperCase_ascii (SetPoints 0%nat (of_Z 5)) s) 0%nat)
  = Some (of_Z 5) /\
  exists lit,
    toJSON 0%nat s = (Normal lit, s) /\
    let s' := run toUpperCase_ascii (Push (lit_texts lit) "stolen") s in
    DankTime.texts (view s' 0%nat) = ["dank"; "stolen"]%string /\
    DankTime.hasText toUpperCase_ascii (view s 0%nat) "STOLEN" = false /\
    DankTime.hasText toUpperCase_ascii (view s' 0%nat) "STOLEN" = true.
Proof.
  intros s. split; [reflexivity|]. split; [reflexivity|].
  eexists. split; [reflexivity|]. cbv zeta.
  split; [reflexivity|]. split; reflexivity.
Qed.

(** C5, amended. Once a TimeSlot is constructed, no operation (the
    construction of other slots, the methods of the class, a write to any
    array) changes its hour, its minute, or which array holds its texts.
    Its points and the elements of that array are not fixed: one operation
    changes the points only when it is the setter applied to this slot
    with a whole number between 1 and 100, which it then stores, and
    changes the texts only when it is a write to the slot's array, which
    is public and is the array [toJSON] hands out.  During regeneration
    the slots are replaced wholesale and never changed in place: every
    slot of the new sequence is a newly constructed object, and the slots
    that existed keep hour, minute, texts and points. *)
Theorem timeslot_after_construction
    (toUpperCase : string -> string) (s : t) (this : ref) :
  wf s -> (this < List.length (objects s))%nat ->
  (forall ops,
     let s' := run_all toUpperCase ops s in
     hour (object_at s' this) = hour (object_at s this) /\
     minute (object_at s' this) = minute (object_at s this) /\
     texts (object_at s' this) = texts (object_at s this)) /\
  (forall op,
     let s' := run toUpperCase op s in
     (_points (object_at s' this) = _points (object_at s this) \/
      exists p, op = SetPoints this p /\ whole_between 1 100 p /\
                _points (object_at s' this) = Some p) /\
     (DankTime.texts (view s' this) = DankTime.texts (view s this) \/
      exists text, op = Push (texts (object_at s this)) text /\
                   DankTime.texts (view s' this) =
                   DankTime.texts (view s this) ++ [text])) /\
  (forall p, whole_between 1 100 p ->
     _points (object_at (run toUpperCase (SetPoints this p) s) this)
     = Some p) /\
  (exists lit,
     toJSON this s = (Normal lit, s) /\
     lit_texts lit = texts (object_at s this) /\
     forall text,
       DankTime.texts
         (view (run toUpperCase (Push (lit_texts lit) text) s) this) =
       DankTime.texts (view s this) ++ [text]) /\
  (forall draws room,
     let result := regenerate draws room s in
     view (snd result) this = view s this /\
     forall room',
       fst result = Normal room' ->
       ~ In this (randomTimeSlots room') /\
       Forall2 (fun (draw : Draw) slot =>
                  (List.length (objects s) <= slot
                   < List.length (objects (snd result)))%nat /\
                  let '(h, m, texts0, p) := draw in
                  DankTime.constructor h m texts0 (Some p)
                  = Normal (view (snd result) slot))
               draws (randomTimeSlots room')).
Proof.
  intros Hwf Hthis.
  assert (Hone : forall op,
            let s' := run toUpperCase op s in
            (_points (object_at s' this) = _points (object_at s this) \/
             exists p, op = SetPoints this p /\ whole_between 1 100 p /\
                       _points (object_at s' this) = Some p) /\
            (DankTime.texts (view s' this) = DankTime.texts (view s this) \/
             exists text, op = Push (texts (object_at s this)) text /\
                          DankTime.texts (view s' this) =
                          DankTime.texts (view s this) ++ [text])).
  { intros op.
    destruct (run_frame toUpperCase op s this Hwf Hthis)
      as (_ & _ & Ht & Hp & Ha & _). cbv zeta in *.
    split; [exact Hp|]. unfold view. cbn [DankTime.texts].
    rewrite Ht. exact Ha. }
  split; [|split; [exact Hone|split; [|split]]].
  - intros ops.
    destruct (run_all_frame toUpperCase ops s this Hwf Hthis)
      as (H1 & H2 & H3 & _). cbv zeta in *. now repeat split.
  - intros p Hp. unfold run, set_points, bind, throw_if.
    fold (out_of_range p 1 100).
    apply out_of_range_false in Hp. rewrite Hp.
    unfold ret, put__points. cbn [snd]. unfold object_at at 1.
    cbn [objects]. now rewrite nth_replace_eq by exact Hthis.
  - eexists. split; [reflexivity|]. cbn [lit_texts].
    split; [reflexivity|]. intros text.
    destruct (Hone (Push (texts (object_at s this)) text))
      as [_ [Hsame|(text' & E & Hpush)]].
    + exfalso. revert Hsame. unfold view, run, array_push.
      cbn [snd DankTime.texts]. unfold object_at, array_at.
      cbn [objects arrays].
      rewrite nth_replace_eq by (apply Hwf; exact Hthis).
      unfold push. intros C. apply (f_equal (@List.length string)) in C.
      rewrite length_app in C. simpl in C. lia.
    + injection E as <-. exact Hpush.
  - intros draws room. unfold regenerate, bind.
    destruct (generateRandomTimeSlots draws s) as [[slots|e] s'] eqn:E;
      destruct (generate_frame draws s s' _ Hwf E)
        as (_ & _ & Hframe & Hall);
      cbn [fst snd ret].
    + unfold ret. cbn [fst snd]. split; [now apply Hframe|].
      intros room' H. injection H as <-. cbn [randomTimeSlots].
      specialize (Hall slots eq_refl). split; [|exact Hall].
      intros Hin. clear - Hall Hin Hthis.
      induction Hall as [|draw slot draws' slots' [Hb _] _ IH];
        [destruct Hin|].
      destruct Hin as [->|Hin]; [lia | now apply IH].
    + split; [now apply Hframe | discriminate].
Qed.

Lemma timeslot_after_construction_witness :
  let s := snd (constructor (of_Z 9) (of_Z 5) ["dank"%string]
                  (Some (of_Z 1)) empty) in
  let ops := [SetPoints 0%nat (of_Z 5); Push 0%nat "stolen"%string;
              New (of_Z 10) (of_Z 0) ["x"%string] None; ToJSON 0%nat;
              HasText 0%nat "dank"%string; SetPoints 0%nat NaN] in
  let draws := [(of_Z 1, of_Z 2, ["a"%string], of_Z 3);
                (of_Z 4, of_Z 5, ["b"%string], of_Z 6)] in
  (hour (object_at (run_all toUpperCase_ascii ops s) 0%nat) = of_Z 9 /\
   minute (object_at (run_all toUpperCase_ascii ops s) 0%nat) = of_Z 5 /\
   texts (object_at (run_all toUpperCase_ascii ops s) 0%nat) = 0%nat) /\
  view (snd (regenerate draws {| randomTimeSlots := [0%nat] |} s)) 0%nat
  = view s 0%nat.
Proof.
  intros s ops draws.
  assert (Hwf : wf s).
  { intros o Ho. destruct o as [|o]; [simpl; lia | simpl in Ho; lia]. }
  assert (Hthis : (0 < List.length (objects s))%nat) by (simpl; lia).
  pose proof (timeslot_after_construction toUpperCase_ascii s 0%nat
                Hwf Hthis) as (Hall & _ & _ & _ & Hregen).
  split.
  - apply (Hall ops).
  - apply (Hregen draws {| randomTimeSlots := [0%nat] |}).
Defined.

End HeapClaims.
